(** * implicit-arap: surface-patch sampling and ARAP-consistency training

    A shallow embedding of the numerical core of the repository
    (iarap/render/sdf_renderer.py, iarap/model/neural_rtf.py,
    iarap/train/deform_trainer.py) together with the properties its
    specification states about it.

    Tensors of 32-bit floats are idealised as real numbers: a point or a
    translation is a [vec3], a rotation a [mat3], a batch a [list].  An
    operation that raises in Python returns an error value here. *)

From Stdlib Require Import String Reals Lra Lia List Arith Bool ZArith.
Import ListNotations.

Local Open Scope R_scope.

(* ================================================================== *)
(** ** Small linear algebra on 3-vectors and 3x3 matrices *)
(* ================================================================== *)

Module LinAlg.

Record vec3 : Type := mkV { vx : R; vy : R; vz : R }.

Record mat3 : Type := mkM {
  m00 : R; m01 : R; m02 : R;
  m10 : R; m11 : R; m12 : R;
  m20 : R; m21 : R; m22 : R }.

Definition vzero : vec3 := mkV 0 0 0.

Definition vadd (a b : vec3) : vec3 :=
  mkV (vx a + vx b) (vy a + vy b) (vz a + vz b).

Definition vsub (a b : vec3) : vec3 :=
  mkV (vx a - vx b) (vy a - vy b) (vz a - vz b).

Definition vscale (k : R) (a : vec3) : vec3 :=
  mkV (k * vx a) (k * vy a) (k * vz a).

Definition vdot (a b : vec3) : R :=
  vx a * vx b + vy a * vy b + vz a * vz b.

(** Sum of the squared components, [x.pow(2).sum(-1)]. *)
Definition sqnorm (a : vec3) : R := vdot a a.

(** Euclidean length, [x.norm(dim=-1)]. *)
Definition norm (a : vec3) : R := sqrt (sqnorm a).

Definition mid : mat3 := mkM 1 0 0  0 1 0  0 0 1.

(** Matrix-vector product, [(M @ v[..., None]).squeeze(-1)]. *)
Definition mapply (M : mat3) (v : vec3) : vec3 :=
  mkV (m00 M * vx v + m01 M * vy v + m02 M * vz v)
      (m10 M * vx v + m11 M * vy v + m12 M * vz v)
      (m20 M * vx v + m21 M * vy v + m22 M * vz v).

Definition mmul (A B : mat3) : mat3 :=
  mkM (m00 A * m00 B + m01 A * m10 B + m02 A * m20 B)
      (m00 A * m01 B + m01 A * m11 B + m02 A * m21 B)
      (m00 A * m02 B + m01 A * m12 B + m02 A * m22 B)
      (m10 A * m00 B + m11 A * m10 B + m12 A * m20 B)
      (m10 A * m01 B + m11 A * m11 B + m12 A * m21 B)
      (m10 A * m02 B + m11 A * m12 B + m12 A * m22 B)
      (m20 A * m00 B + m21 A * m10 B + m22 A * m20 B)
      (m20 A * m01 B + m21 A * m11 B + m22 A * m21 B)
      (m20 A * m02 B + m21 A * m12 B + m22 A * m22 B).

(** [M.transpose(-1, -2)] *)
Definition mtranspose (A : mat3) : mat3 :=
  mkM (m00 A) (m10 A) (m20 A)
      (m01 A) (m11 A) (m21 A)
      (m02 A) (m12 A) (m22 A).

Definition mdet (A : mat3) : R :=
    m00 A * (m11 A * m22 A - m12 A * m21 A)
  - m01 A * (m10 A * m22 A - m12 A * m20 A)
  + m02 A * (m10 A * m21 A - m11 A * m20 A).

(** A proper rotation: orthonormal with determinant one. *)
Definition proper_rotation (A : mat3) : Prop :=
  mmul A (mtranspose A) = mid /\ mdet A = 1.

(** Componentwise equalities of records of reals are ring identities. *)
Ltac vec_ring :=
  intros;
  repeat match goal with
         | v : vec3 |- _ => destruct v
         | M : mat3 |- _ => destruct M
         end;
  cbv [vadd vsub vscale vdot sqnorm mapply mmul mtranspose mdet mid vzero
       vx vy vz m00 m01 m02 m10 m11 m12 m20 m21 m22];
  try (f_equal; ring); try ring.

End LinAlg.
Export LinAlg.

(* ================================================================== *)
(** ** The tensor-library operations the sources call *)
(* ================================================================== *)

Module Torch.

(** [for it in range(n): x = body(x)] *)
Fixpoint for_range {A : Type} (n : nat) (body : A -> A) (x : A) : A :=
  match n with
  | O => x
  | S k => for_range k body (body x)
  end.

(** Elementwise combination of two batches of equal length. *)
Fixpoint zip_with {A B C : Type} (f : A -> B -> C)
  (xs : list A) (ys : list B) : list C :=
  match xs, ys with
  | x :: xs', y :: ys' => f x y :: zip_with f xs' ys'
  | _, _ => []
  end.

(** The default [eps] of [torch.nn.functional.normalize], 1e-12. *)
Definition normalize_eps : R := / 10 ^ 12.

(** [F.normalize(v, dim=-1)]: [v / max(||v||_2, eps)]. *)
Definition normalize_denom (v : vec3) : R := Rmax (norm v) normalize_eps.

Definition F_normalize (v : vec3) : vec3 :=
  vscale (/ normalize_denom v) v.

(** A floating-point scalar that may have become undefined. *)
Inductive value : Type :=
| Finite (x : R)
| NaN.

Fixpoint sum_list (l : list R) : R :=
  match l with
  | [] => 0
  | x :: l' => x + sum_list l'
  end.

(** [t.sum()] and [t.mean()]; the mean of an empty tensor is 0/0. *)
Definition tensor_sum (l : list R) : value := Finite (sum_list l).

Definition tensor_mean (l : list R) : value :=
  match l with
  | [] => NaN
  | _ :: _ => Finite (sum_list l / INR (length l))
  end.

(** [t[row, col]] on a batch of rows; [None] is the IndexError. *)
Definition index2 {A : Type} (t : list (list A)) (row col : nat) : option A :=
  match nth_error t row with
  | Some r => nth_error r col
  | None => None
  end.

End Torch.
Export Torch.

(* ================================================================== *)
(** ** iarap/model/neural_rtf.py: the deformation network's forward pass *)
(* ================================================================== *)

Module NeuralRTF.

(** Rotations about the coordinate axes, from the cosine and the sine of
    the angle. *)
Definition rot_x (c s : R) : mat3 := mkM 1 0 0  0 c (- s)  0 s c.
Definition rot_y (c s : R) : mat3 := mkM c 0 s  0 1 0  (- s) 0 c.
Definition rot_z (c s : R) : mat3 := mkM c (- s) 0  s c 0  0 0 1.

(** Modelled from the spec: [iarap.utils.euler_to_rotation] is not among
    the sources.  The specification says the rotation is "constructed from
    Euler angles, not learned directly as matrices": the three angles
    (about x, y and z) give three axis rotations, which are composed. *)
Definition euler_to_rotation (euler : vec3) : mat3 :=
  mmul (rot_z (cos (vz euler)) (sin (vz euler)))
       (mmul (rot_y (cos (vy euler)) (sin (vy euler)))
             (rot_x (cos (vx euler)) (sin (vx euler)))).

(** The last axis of a tensor read as a 3-vector. *)
Definition vec_of_list (l : list R) : vec3 :=
  mkV (nth 0 l 0) (nth 1 l 0) (nth 2 l 0).

(** The dictionary [forward] returns. *)
Record outputs : Type := mkOutputs { rot : mat3; transl : vec3 }.

Section Forward.

(** [self.model = nn.Sequential(self.encoding, self.network)], an MLP with
    [out_dim = 6] outputs per point; its layers are out of scope. *)
Variable model : vec3 -> list R.

(** [NeuralRTF.forward]:
<<
      rt = self.model(x_in)
      euler, transl = rt[..., :3], rt[..., 3:]
      outputs['rot'] = euler_to_rotation(euler)
      outputs['transl'] = transl
>> *)
Definition forward (x_in : vec3) : outputs :=
  let rt := model x_in in
  let euler := firstn 3 rt in
  let transl := skipn 3 rt in
  mkOutputs (euler_to_rotation (vec_of_list euler)) (vec_of_list transl).

(** [NeuralRTF.deform]:
    [(outputs['rot'] @ x_in[..., None]).squeeze(-1) + outputs['transl']] *)
Definition deform (x_in : vec3) : vec3 :=
  let out := forward x_in in
  vadd (mapply (rot out) x_in) (transl out).

End Forward.

End NeuralRTF.

(* ================================================================== *)
(** ** iarap/render/sdf_renderer.py: projection onto a level set *)
(* ================================================================== *)

Module SDFRenderer.

Section ProjectNearest.

(** [self.sdf_functional]: the shape network, composed with the
    deformation when one is loaded; it acts on each row of the batch. *)
Variable sdf_functional : vec3 -> R.

(** [gradient(dist, query)]: the derivative of the distance with respect
    to the query point, obtained by automatic differentiation. *)
Variable gradient : vec3 -> vec3.

(** One round of the loop of [project_nearest], on the batch:
<<
        dist = self.sdf_functional(query) - level
        grad = F.normalize(gradient(dist, query), dim=-1)
        query = (query - dist * grad).detach().requires_grad_()
>> *)
Definition project_round (level : R) (query : list vec3) : list vec3 :=
  let dist := map (fun q => sdf_functional q - level) query in
  let grad := map F_normalize (map gradient query) in
  zip_with vsub query (zip_with vscale dist grad).

(** [SDFRenderer.project_nearest(query, n_its, level)] on the batch of
    rows [query.view(-1, 3)]. *)
Definition project_nearest (query : list vec3) (n_its : nat) (level : R)
  : list vec3 :=
  for_range n_its (project_round level) query.

(** The update of the specification, on one point:
    [p <- p - (f(p) - target_level) * normalize(grad f(p))]. *)
Definition level_set_update (target_level : R) (p : vec3) : vec3 :=
  vsub p (vscale (sdf_functional p - target_level)
                 (F_normalize (gradient p))).

End ProjectNearest.

(** The distance field [f(p) = (eps/2) * p.x + 1], whose gradient is
    [(eps/2, 0, 0)] everywhere: shorter than [eps], but not zero. *)
Definition shallow_ramp (p : vec3) : R := normalize_eps / 2 * vx p + 1.
Definition shallow_ramp_gradient (_ : vec3) : vec3 :=
  mkV (normalize_eps / 2) 0 0.

End SDFRenderer.

(* ================================================================== *)
(** ** The zero-level-set sampler of the frozen shape network *)
(* ================================================================== *)

Module ZeroLevelSetSampler.

(** What a call of the sampler yields: the points, or the
    insufficient-samples failure with the number of candidates found. *)
Inductive sample_result : Type :=
| Samples (points : list vec3)
| InsufficientSamples (collected : nat).

Section Sampler.

(** The state of the random generator, and [torch.rand(n, 3)]: [n] rows
    drawn from the unit cube and the advanced generator. *)
Variable rng : Type.
Variable rand : nat -> rng -> list vec3 * rng.

(** [distance] and its gradient, of the frozen shape network. *)
Variable distance : vec3 -> R.
Variable gradient : vec3 -> vec3.

(** The number of batches the sampler may draw. *)
Variable retry_budget : nat.

(** A row of the unit cube moved into the domain bounding box. *)
Definition to_domain (bounds : R * R) (u : vec3) : vec3 :=
  let scale := snd bounds - fst bounds in
  mkV (vx u * scale + fst bounds)
      (vy u * scale + fst bounds)
      (vz u * scale + fst bounds).

(** [|f(p)| < near_surface_threshold] *)
Definition near_surface (threshold : R) (p : vec3) : bool :=
  if Rlt_dec (Rabs (distance p)) threshold then true else false.

(** One batch of candidates: the rows kept, and the advanced generator. *)
Definition draw_batch (attempts : nat) (threshold : R) (bounds : R * R)
  (g : rng) : list vec3 * rng :=
  let (unif, g') := rand attempts g in
  (filter (near_surface threshold) (map (to_domain bounds) unif), g').

(** Modelled from the spec: [sample_zero_level_set] belongs to the shape
    network, which is not among the sources.  "Rejection sampling - draw
    candidate points uniformly from the domain bounding box in batches of
    [attempts_per_step], evaluate |f(p)|, keep those below
    [near_surface_threshold], [...] repeat until [n] are collected or a
    retry budget is exhausted"; an exhausted budget is "surfaced as
    insufficient-samples condition, not silently returning fewer
    points". *)
Fixpoint collect (retries n attempts : nat) (threshold : R)
  (bounds : R * R) (kept : list vec3) (g : rng) : sample_result * rng :=
  if (n <=? length kept)%nat then (Samples (firstn n kept), g)
  else
    match retries with
    | O => (InsufficientSamples (length kept), g)
    | S retries' =>
        let (survivors, g') := draw_batch attempts threshold bounds g in
        collect retries' n attempts threshold bounds (kept ++ survivors) g'
    end.

(** Modelled from the spec: "project survivors to the exact zero level via
    4.1", the projector run for [num_projections] rounds at level 0. *)
Definition sample_zero_level_set (n : nat) (threshold : R) (attempts : nat)
  (bounds : R * R) (num_projections : nat) (g : rng)
  : sample_result * rng :=
  match collect retry_budget n attempts threshold bounds [] g with
  | (Samples points, g') =>
      (Samples (SDFRenderer.project_nearest distance gradient
                  points num_projections 0), g')
  | (InsufficientSamples k, g') => (InsufficientSamples k, g')
  end.

(** All the near-surface candidates the budget can produce, in the order
    they are drawn. *)
Fixpoint budget_candidates (retries attempts : nat) (threshold : R)
  (bounds : R * R) (g : rng) : list vec3 :=
  match retries with
  | O => []
  | S retries' =>
      let (survivors, g') := draw_batch attempts threshold bounds g in
      survivors ++ budget_candidates retries' attempts threshold bounds g'
  end.

End Sampler.

End ZeroLevelSetSampler.

(* ================================================================== *)
(** ** The rigidity and handle loss *)
(* ================================================================== *)

Module PatchARAPLoss.

(** How the per-edge and per-handle terms are aggregated. *)
Inductive reduction : Type := Mean | Sum.

Definition aggregate (r : reduction) (terms : list R) : value :=
  match r with
  | Mean => tensor_mean terms
  | Sum => tensor_sum terms
  end.

(** Modelled from the spec: [iarap.model.nn.loss] is not among the
    sources.  "Deformed vertex: v' = R v + t using the per-vertex predicted
    rotation/translation". *)
Definition deformed (Rv : mat3) (tv : vec3) (v : vec3) : vec3 :=
  vadd (mapply Rv v) tv.

(** An undirected edge, smaller index first. *)
Definition edge : Type := (nat * nat)%type.

Definition mk_edge (a b : nat) : edge := (Nat.min a b, Nat.max a b).

Definition edge_eq_dec (e1 e2 : edge) : {e1 = e2} + {e1 <> e2}.
Proof. repeat decide equality. Defined.

(** Modelled from the spec: "every edge (i,j) implied by the
    triangulation"; an edge two triangles share is one edge. *)
Definition edges_of (triangles : list (nat * nat * nat)) : list edge :=
  nodup edge_eq_dec
    (flat_map (fun t => match t with
                        | (a, b, c) => [mk_edge a b; mk_edge b c; mk_edge c a]
                        end) triangles).

(** Both ends of the edge index a vertex of the patch. *)
Definition edge_in_range (V : list vec3) (e : edge) : Prop :=
  (fst e < length V)%nat /\ (snd e < length V)%nat.

(** Modelled from the spec: the discrepancy between "the deformed edge
    vector v'_i - v'_j and the rigidly-rotated original edge vector", for
    the rotation [Rk] of one endpoint. *)
Definition edge_error (Rk : mat3) (d' d : vec3) : R :=
  sqnorm (vsub d' (mapply Rk d)).

(** Modelled from the spec: "an edge's rigidity error is evaluated twice,
    once under vertex i's rotation and once under vertex j's, and both are
    accumulated".  [None] is the IndexError of an index outside the
    patch. *)
Definition edge_terms (V : list vec3) (Rs : list mat3) (Ts : list vec3)
  (e : edge) : option (list R) :=
  let (i, j) := e in
  match nth_error V i, nth_error V j,
        nth_error Rs i, nth_error Rs j,
        nth_error Ts i, nth_error Ts j with
  | Some vi, Some vj, Some Ri, Some Rj, Some ti, Some tj =>
      let d' := vsub (deformed Ri ti vi) (deformed Rj tj vj) in
      let d := vsub vi vj in
      Some [edge_error Ri d' d; edge_error Rj d' d]
  | _, _, _, _, _, _ => None
  end.

(** The terms of one patch, edge after edge. *)
Fixpoint patch_terms (V : list vec3) (Rs : list mat3) (Ts : list vec3)
  (edges : list edge) : option (list R) :=
  match edges with
  | [] => Some []
  | e :: edges' =>
      match edge_terms V Rs Ts e, patch_terms V Rs Ts edges' with
      | Some a, Some b => Some (a ++ b)
      | _, _ => None
      end
  end.

(** The terms of all patches, "within each patch independently"; batches
    of different lengths are a shape error. *)
Fixpoint rigidity_terms (verts : list (list vec3))
  (rotations : list (list mat3)) (translations : list (list vec3))
  (edges : list edge) : option (list R) :=
  match verts, rotations, translations with
  | [], [], [] => Some []
  | V :: verts', Rs :: rotations', Ts :: translations' =>
      match patch_terms V Rs Ts edges,
            rigidity_terms verts' rotations' translations' edges with
      | Some a, Some b => Some (a ++ b)
      | _, _ => None
      end
  | _, _, _ => None
  end.

(** Modelled from the spec: "Aggregate by mean (or sum, configurable)
    over all edges and all patches". *)
Definition rigidity_term (r : reduction) (verts : list (list vec3))
  (triangles : list (nat * nat * nat))
  (rotations : list (list mat3)) (translations : list (list vec3))
  : option value :=
  option_map (aggregate r)
    (rigidity_terms verts rotations translations (edges_of triangles)).

(** Modelled from the spec: the handle term penalizes "the squared
    difference between the predicted transform applied to the handle point
    and the prescribed target transform applied to the same point"; for a
    static handle the prescribed transform is the identity, so its target
    is the handle point itself.  [target] is the image of the handle point
    under the prescribed transform. *)
Definition handle_contribution (Rv : mat3) (tv : vec3) (v target : vec3)
  : R :=
  sqnorm (vsub (deformed Rv tv v) target).

(** The contribution of the handle that [idx] selects; "out-of-range
    indices are a programming error (fatal, not recovered)". *)
Definition handle_entry (verts : list (list vec3))
  (rotations : list (list mat3)) (translations : list (list vec3))
  (idx : nat * nat) (target : vec3) : option R :=
  let (row, col) := idx in
  match index2 verts row col,
        index2 rotations row col,
        index2 translations row col with
  | Some v, Some Rv, Some tv => Some (handle_contribution Rv tv v target)
  | _, _, _ => None
  end.

Fixpoint handle_terms (verts : list (list vec3))
  (rotations : list (list mat3)) (translations : list (list vec3))
  (idx : list (nat * nat)) (targets : list vec3) : option (list R) :=
  match idx, targets with
  | [], [] => Some []
  | i :: idx', t :: targets' =>
      match handle_entry verts rotations translations i t,
            handle_terms verts rotations translations idx' targets' with
      | Some a, Some b => Some (a :: b)
      | _, _ => None
      end
  | _, _ => None
  end.

(** The handle targets list the moving handles first, then the static
    ones, as the index tensors do. *)
Definition handle_term (r : reduction) (verts : list (list vec3))
  (rotations : list (list mat3)) (translations : list (list vec3))
  (moving_idx static_idx : list (nat * nat)) (handle_targets : list vec3)
  : option value :=
  option_map (aggregate r)
    (handle_terms verts rotations translations
       (moving_idx ++ static_idx) handle_targets).

(** The dictionary of loss terms. *)
Record loss_dict : Type :=
  mkLossDict { rigidity_loss : value; handle_loss : value }.

(** Modelled from the spec: [loss(patch_vertices, triangulation,
    rotations, translations, moving_idx, static_idx, handle_targets)]
    gives the rigidity term and the handle term. *)
Definition loss_forward (r : reduction) (verts : list (list vec3))
  (triangles : list (nat * nat * nat))
  (rotations : list (list mat3)) (translations : list (list vec3))
  (moving_idx static_idx : list (nat * nat)) (handle_targets : list vec3)
  : option loss_dict :=
  match rigidity_term r verts triangles rotations translations,
        handle_term r verts rotations translations
          moving_idx static_idx handle_targets with
  | Some rl, Some hl => Some (mkLossDict rl hl)
  | _, _ => None
  end.

End PatchARAPLoss.

(* ================================================================== *)
(** ** The rigidity energy, as a sum over patches and edges *)
(* ================================================================== *)

Module ARAPEnergy.

Import PatchARAPLoss.

(** The rigidity error of one edge of one patch as the specification
    words it: the discrepancy of the deformed edge is "evaluated twice,
    once under vertex i's rotation and once under vertex j's, and both are
    accumulated". *)
Definition edge_energy (V : list vec3) (Rs : list mat3) (Ts : list vec3)
  (e : edge) : R :=
  let vi := nth (fst e) V vzero in
  let vj := nth (snd e) V vzero in
  let Ri := nth (fst e) Rs mid in
  let Rj := nth (snd e) Rs mid in
  let ti := nth (fst e) Ts vzero in
  let tj := nth (snd e) Ts vzero in
  let d' := vsub (deformed Ri ti vi) (deformed Rj tj vj) in
  let d := vsub vi vj in
  edge_error Ri d' d + edge_error Rj d' d.

(** The energy of a patch: the sum over the edges of the triangulation. *)
Definition patch_energy (V : list vec3) (Rs : list mat3) (Ts : list vec3)
  (edges : list edge) : R :=
  sum_list (map (edge_energy V Rs Ts) edges).

(** The energy of a batch: the sum over its patches, each with the same
    list of edges. *)
Fixpoint total_energy (verts : list (list vec3))
  (rotations : list (list mat3)) (translations : list (list vec3))
  (edges : list edge) : R :=
  match verts, rotations, translations with
  | V :: verts', Rs :: rotations', Ts :: translations' =>
      patch_energy V Rs Ts edges
      + total_energy verts' rotations' translations' edges
  | _, _, _ => 0
  end.

End ARAPEnergy.

(* ================================================================== *)
(** ** iarap/train/deform_trainer.py: the training step *)
(* ================================================================== *)

Module DeformTrainer.

Import ZeroLevelSetSampler PatchARAPLoss.

(** A parameter tensor of a network: its values, whether gradients are
    tracked for it, and the gradient [backward] left on it. *)
Record parameter : Type := mkParameter {
  data : list R;
  requires_grad : bool;
  grad : option (list R) }.

(** [named_parameters()] of a network, and a checkpoint. *)
Definition module_params : Type := list (string * parameter).
Definition state_dict : Type := list (string * list R).

Fixpoint lookup_key (name : string) (sd : state_dict) : option (list R) :=
  match sd with
  | [] => None
  | (k, d) :: sd' => if String.eqb name k then Some d else lookup_key name sd'
  end.

(** [Module.load_state_dict]: every parameter takes the values stored
    under its name; a missing key raises. *)
Fixpoint load_state_dict (sd : state_dict) (m : module_params)
  : option module_params :=
  match m with
  | [] => Some []
  | (name, p) :: m' =>
      match lookup_key name sd, load_state_dict sd m' with
      | Some d, Some rest =>
          Some ((name, mkParameter d (requires_grad p) (grad p)) :: rest)
      | _, _ => None
      end
  end.

(** Modelled from the spec: [iarap.utils.detach_model] is not among the
    sources; the parameters are "explicitly detached from gradient
    tracking at setup". *)
Definition detach_model (m : module_params) : module_params :=
  map (fun np => (fst np, mkParameter (data (snd np)) false (grad (snd np))))
      m.

(** No parameter of the network tracks gradients. *)
Definition detached (m : module_params) : Prop :=
  Forall (fun np => requires_grad (snd np) = false) m.

(** [DeformTrainerConfig]; [shape_model] and [rotation_model] stand for
    the networks their [setup()] builds, [pretrained_shape] for the
    checkpoint the path names. *)
Record DeformTrainerConfig : Type := mkConfig {
  num_steps : nat;
  pretrained_shape : state_dict;
  delaunay_sample : nat;
  zero_samples : Z;
  space_samples : nat;
  attempts_per_step : nat;
  near_surface_threshold : R;
  domain_bounds : R * R;
  num_projections : nat;
  plane_coords_scale : R;
  shape_model : module_params;
  rotation_model : module_params;
  loss : reduction }.

(** The attributes of the trainer that the step reads.  A row of
    [handles_moving] is a position and the three values of its
    transform. *)
Record trainer : Type := mkTrainer {
  config : DeformTrainerConfig;
  source : module_params;
  model : module_params;
  handles_static : list vec3;
  handles_moving : list (vec3 * vec3) }.

(** [DeformTrainer.setup_model]:
<<
        self.source = self.config.shape_model.setup().to(...).eval()
        self.source.load_state_dict(torch.load(self.config.pretrained_shape))
        detach_model(self.source)
        self.model = self.config.rotation_model.setup().to(...).train()
>> *)
Definition setup_model (self : trainer) : option trainer :=
  let cfg := config self in
  match load_state_dict (pretrained_shape cfg) (shape_model cfg) with
  | Some loaded =>
      Some (mkTrainer cfg (detach_model loaded) (rotation_model cfg)
              (handles_static self) (handles_moving self))
  | None => None
  end.

(** What a step can raise. *)
Inductive exn : Type :=
| InsufficientSamplesError (collected : nat)
| IndexError.

Inductive outcome (A : Type) : Type :=
| Returned (a : A)
| Raised (e : exn).
Arguments Returned {A} a.
Arguments Raised {A} e.

(** The local variables of [train_step] when it calls the loss. *)
Record locals : Type := mkLocals {
  l_handles : list vec3;
  l_handle_values : list vec3;
  l_samples : list vec3;
  l_sample_dist : list R;
  l_plane_coords : list vec3;
  l_triangles : list (nat * nat * nat);
  l_tangent_pts : list (list vec3);
  l_level_set_verts : list (list vec3);
  l_rotations : list (list mat3);
  l_translations : list (list vec3);
  l_moving_idx : list (nat * nat);
  l_static_idx : list (nat * nat) }.

Section Step.

(** The state of the random generators that [__init__] seeds, and
    [torch.rand(n, 3)]. *)
Variable rng : Type.
Variable rand : nat -> rng -> list vec3 * rng.

(** The frozen shape network, as a function of its parameters:
    [distance], its gradient, [tangent_plane] and
    [sample_zero_level_set]. *)
Variable sdf_distance : module_params -> vec3 -> R.
Variable sdf_gradient : module_params -> vec3 -> vec3.
Variable sdf_tangent_plane : module_params -> vec3 -> mat3.
Variable sdf_sample_zero_level_set :
  module_params -> Z -> R -> nat -> R * R -> nat -> rng ->
  sample_result * rng.

(** The layers of the deformation network, as a function of its
    parameters. *)
Variable rtf_network : module_params -> vec3 -> list R.

(** [sphere_random_uniform] and [delaunay], handed to [get_patch_mesh].
    The point generator may draw from the random generators and leaves
    them advanced; the triangulation is a function of the points. *)
Variable point_dist_fn : nat -> R -> rng -> list vec3 * rng.
Variable triangulation_fn : list (R * R) -> list (nat * nat * nat).

(** Modelled from the spec: [project_nearest] of the shape network is not
    among the sources; one step of 4.1 toward the zero level. *)
Definition source_project_nearest (src : module_params)
  (points : list vec3) : list vec3 :=
  SDFRenderer.project_round (sdf_distance src) (sdf_gradient src) 0 points.

(** Modelled from the spec: [project_level_sets] of the shape network is
    not among the sources; one step of 4.1 "with a target-level tensor
    sized per-point", the level of a patch being that of its sample. *)
Definition source_project_level_sets (src : module_params)
  (verts : list (list vec3)) (levels : list R) : list (list vec3) :=
  zip_with
    (fun patch level =>
       SDFRenderer.project_round (sdf_distance src) (sdf_gradient src)
         level patch)
    verts levels.

(** Modelled from the spec: [iarap.utils.meshing.get_patch_mesh] is not
    among the sources.  "generate a [...] roughly uniform point
    distribution on a disk of given radius [...] then triangulate via 2D
    Delaunay triangulation [...] computed on the 2D projection of the disk
    points even though they are stored/returned in 3D (z=0) form".  The
    points come from the generator the caller hands over. *)
Definition get_patch_mesh (num_points : nat) (radius : R) (g : rng)
  : list vec3 * list (nat * nat * nat) * rng :=
  let (plane_coords, g') := point_dist_fn num_points radius g in
  let triangles :=
    triangulation_fn (map (fun p => (vx p, vy p)) plane_coords) in
  (plane_coords, triangles, g').

(** [DeformTrainer.sample_domain]:
<<
        scale = self.config.domain_bounds[1] - self.config.domain_bounds[0]
        return torch.rand(nsamples, 3, ...) * scale + self.config.domain_bounds[0]
>> *)
Definition sample_domain (self : trainer) (nsamples : nat) (g : rng)
  : list vec3 * rng :=
  let scale :=
    snd (domain_bounds (config self)) - fst (domain_bounds (config self)) in
  let lo := fst (domain_bounds (config self)) in
  let (u, g') := rand nsamples g in
  (map (fun p => mkV (vx p * scale + lo) (vy p * scale + lo)
                     (vz p * scale + lo)) u, g').

(** [DeformTrainer.train_step] up to the call of the loss (the [DEBUG]
    branch is off).  A batch is a list of rows and a batch of patches a
    list of lists: the matrix product broadcasts the template over the
    samples, [squeeze()] drops the trailing axis of length one, and the
    sum broadcasts each sample over the vertices of its patch.
    [.detach()] changes no value.

<<
        handles = torch.cat([self.handles_moving[:, :3], self.handles_static], dim=0)
        for it in range(self.config.num_projections):
            handles = self.source.project_nearest(handles).detach()
        handle_values = torch.cat(
            [self.handles_moving[:, 3:], handles[self.handles_moving.shape[0]:, :]], dim=0)
        surf_sample = self.source.sample_zero_level_set(
            self.config.zero_samples - handles.shape[0], ...)
        surf_sample = torch.cat([handles, surf_sample], dim=0)
        space_sample = self.sample_domain(self.config.space_samples)
        samples = torch.cat([surf_sample, space_sample], dim=0)
        sdf_outs = self.source(samples, with_grad=True)
        sample_dist = sdf_outs['dist']
        tangent_planes = self.source.tangent_plane(samples)
        plane_coords, triangles = get_patch_mesh(sphere_random_uniform, delaunay, ...)
        tangent_coords = (tangent_planes.unsqueeze(1) @ plane_coords.view(1, -1, 3, 1)).squeeze()
        tangent_pts = tangent_coords + samples.unsqueeze(1)
        level_set_verts = tangent_pts
        for it in range(self.config.num_projections):
            level_set_verts = self.source.project_level_sets(level_set_verts, sample_dist)
        rtf_out = self.model(level_set_verts.detach())
        handle_idx = torch.stack([torch.arange(0, handles.shape[0]),
                                  torch.zeros(handles.shape[0])], dim=-1)
        moving_idx = handle_idx[:self.handles_moving.shape[0], :]
        static_idx = handle_idx[self.handles_moving.shape[0]:, :]
>> *)
Definition train_step_locals (self : trainer) (g : rng)
  : outcome locals * rng :=
  let cfg := config self in
  let src := source self in
  let n_moving := length (handles_moving self) in
  let handles :=
    for_range (num_projections cfg) (source_project_nearest src)
      (map fst (handles_moving self) ++ handles_static self) in
  let handle_values :=
    map snd (handles_moving self) ++ skipn n_moving handles in
  match sdf_sample_zero_level_set src
          (zero_samples cfg - Z.of_nat (length handles))%Z
          (near_surface_threshold cfg) (attempts_per_step cfg)
          (domain_bounds cfg) (num_projections cfg) g with
  | (InsufficientSamples k, g1) => (Raised (InsufficientSamplesError k), g1)
  | (Samples sampled, g1) =>
      let surf_sample := handles ++ sampled in
      let (space_sample, g2) := sample_domain self (space_samples cfg) g1 in
      let samples := surf_sample ++ space_sample in
      let sample_dist := map (sdf_distance src) samples in
      let tangent_planes := map (sdf_tangent_plane src) samples in
      let '(plane_coords, triangles, g3) :=
        get_patch_mesh (delaunay_sample cfg) (plane_coords_scale cfg) g2 in
      let tangent_coords :=
        map (fun T => map (mapply T) plane_coords) tangent_planes in
      let tangent_pts :=
        zip_with (fun coords s => map (fun c => vadd c s) coords)
          tangent_coords samples in
      let level_set_verts :=
        for_range (num_projections cfg)
          (fun verts => source_project_level_sets src verts sample_dist)
          tangent_pts in
      let rtf_out :=
        map (map (NeuralRTF.forward (rtf_network (model self))))
          level_set_verts in
      let rotations := map (map NeuralRTF.rot) rtf_out in
      let translations := map (map NeuralRTF.transl) rtf_out in
      let handle_idx :=
        combine (seq 0 (length handles)) (repeat 0%nat (length handles)) in
      let moving_idx := firstn n_moving handle_idx in
      let static_idx := skipn n_moving handle_idx in
      (Returned
         (mkLocals handles handle_values samples sample_dist
            plane_coords triangles tangent_pts level_set_verts
            rotations translations moving_idx static_idx), g3)
  end.

(** [loss_dict = self.loss(level_set_verts.detach(), triangles, rotations,
    translations, moving_idx, static_idx, handle_values)] *)
Definition call_loss (self : trainer) (l : locals) : outcome loss_dict :=
  match loss_forward (loss (config self))
          (l_level_set_verts l) (l_triangles l)
          (l_rotations l) (l_translations l)
          (l_moving_idx l) (l_static_idx l) (l_handle_values l) with
  | Some d => Returned d
  | None => Raised IndexError
  end.

Definition train_step (self : trainer) (g : rng)
  : outcome loss_dict * rng :=
  match train_step_locals self g with
  | (Returned l, g') => (call_loss self l, g')
  | (Raised e, g') => (Raised e, g')
  end.

(** *** The external training loop *)

(** The gradients automatic differentiation computes for the named
    parameters of the two networks at a step, and the learning rate. *)
Variable autograd : trainer -> loss_dict -> string -> list R.
Variable lr : R.

(** [loss.backward()]: a gradient is left on every parameter that tracks
    gradients. *)
Definition backward (grads : string -> list R) (m : module_params)
  : module_params :=
  map (fun np =>
         if requires_grad (snd np)
         then (fst np, mkParameter (data (snd np)) true
                         (Some (grads (fst np))))
         else np) m.

(** [optimizer.step()]: a parameter that holds a gradient moves against
    it. *)
Definition optimizer_step (m : module_params) : module_params :=
  map (fun np =>
         match grad (snd np) with
         | Some gr =>
             (fst np, mkParameter
                        (zip_with (fun x d => x - lr * d) (data (snd np)) gr)
                        (requires_grad (snd np)) (grad (snd np)))
         | None => np
         end) m.

(** Modelled from the spec: the trainer abstraction is not among the
    sources.  One pass of "Idle -> SamplingHandles -> ... -> LossCompute ->
    Backward/Step -> Idle": the step, the backward pass over the networks
    the trainer holds, and the optimizer on the deformation network, whose
    parameters "are the sole mutable shared state, exclusively updated by
    the external optimizer between steps".  A step that raises aborts the
    run and updates nothing. *)
Definition training_iteration (self : trainer) (g : rng)
  : trainer * rng * bool :=
  match train_step self g with
  | (Returned d, g') =>
      let grads := autograd self d in
      (mkTrainer (config self)
         (backward grads (source self))
         (optimizer_step (backward grads (model self)))
         (handles_static self) (handles_moving self), g', true)
  | (Raised _, g') => (self, g', false)
  end.

(** The run: up to [steps] iterations, ended by the first that raises. *)
Fixpoint run (steps : nat) (self : trainer) (g : rng) : trainer * rng :=
  match steps with
  | O => (self, g)
  | S steps' =>
      match training_iteration self g with
      | (self', g', true) => run steps' self' g'
      | (self', g', false) => (self', g')
      end
  end.

End Step.

End DeformTrainer.

(* ================================================================== *)
(** ** A small scene: the plane z = 0 *)
(* ================================================================== *)

Module Scene.

Import ZeroLevelSetSampler PatchARAPLoss DeformTrainer.

(** A generator that counts its draws and always yields the centre of the
    unit cube. *)
Definition rand (n : nat) (g : nat) : list vec3 * nat :=
  (repeat (mkV (1 / 2) (1 / 2) (1 / 2)) n, S g).

(** The signed distance to the plane z = 0, its gradient and a tangent
    frame. *)
Definition sdf_distance (_ : module_params) (p : vec3) : R := vz p.
Definition sdf_gradient (_ : module_params) (_ : vec3) : vec3 := mkV 0 0 1.
Definition sdf_tangent_plane (_ : module_params) (_ : vec3) : mat3 := mid.

(** A sampler that returns the origin as often as requested. *)
Definition sample_zero_level_set (_ : module_params) (n : Z) (_ : R)
  (_ : nat) (_ : R * R) (_ : nat) (g : nat) : sample_result * nat :=
  (Samples (repeat vzero (Z.to_nat n)), S g).

(** A deformation network that outputs no rotation and no translation. *)
Definition rtf_network (_ : module_params) (_ : vec3) : list R :=
  [0; 0; 0; 0; 0; 0].

(** A template of three points, one triangle, that draws nothing from the
    generator. *)
Definition point_dist_fn (_ : nat) (r : R) (g : nat) : list vec3 * nat :=
  ([vzero; mkV r 0 0; mkV 0 r 0], g).

Definition triangulation_fn (_ : list (R * R)) : list (nat * nat * nat) :=
  [(0%nat, 1%nat, 2%nat)].

Definition autograd (_ : trainer) (_ : loss_dict) (_ : string) : list R :=
  [1; 1].

Definition cfg : DeformTrainerConfig :=
  mkConfig 2 [("w"%string, [3; 4])] 3 3%Z 1 10 (5 / 100) (-1, 1) 1
    (2 / 100)
    [("w"%string, mkParameter [0; 0] true None)]
    [("r"%string, mkParameter [0; 0] true None)]
    Mean.

(** One moving handle above the plane and one static handle on it. *)
Definition fresh : trainer :=
  mkTrainer cfg [] [] [mkV 1 0 0] [(mkV 0 0 1, mkV 0 0 2)].

Definition ready : trainer :=
  mkTrainer cfg
    [("w"%string, mkParameter [3; 4] false None)]
    [("r"%string, mkParameter [0; 0] true None)]
    [mkV 1 0 0] [(mkV 0 0 1, mkV 0 0 2)].

End Scene.

(* ================================================================== *)
(** ** iarap/model/neural_rtf.py: inverting the deformation *)
(* ================================================================== *)

Module FixedPointInvert.

Import NeuralRTF.

(** One round of the loop of [fixed_point_invert]:
<<
            block_out = g(x)
            rot, transl = block_out[..., :3], block_out[..., 3:]
            rot = euler_to_rotation(rot)
            x = (rot.transpose(-1, -2) @ (y - transl)[..., None]).squeeze(-1)
>> *)
Definition invert_round (g : vec3 -> list R) (y x : vec3) : vec3 :=
  let block_out := g x in
  let rot := euler_to_rotation (vec_of_list (firstn 3 block_out)) in
  let transl := vec_of_list (skipn 3 block_out) in
  mapply (mtranspose rot) (vsub y transl).

(** [fixed_point_invert(g, y, iters)], with [verbose] off: [x = y], then
    [iters] rounds. *)
Definition fixed_point_invert (g : vec3 -> list R) (y : vec3) (iters : nat)
  : vec3 :=
  for_range iters (invert_round g y) y.

(** [NeuralRTF.inverse]: [fixed_point_invert(self.model, x_in)], with the
    default of 15 rounds. *)
Definition inverse (model : vec3 -> list R) (x_in : vec3) : vec3 :=
  fixed_point_invert model x_in 15.

End FixedPointInvert.

(* ================================================================== *)
(** ** iarap/render/sdf_renderer.py: the cached volume and the mesh *)
(* ================================================================== *)

Module SDFVolume.

(** The position of the (real) grid index [v] on a grid of [steps] points
    from [lo] to [hi]. *)
Definition grid_position (lo hi : R) (steps : nat) (v : R) : R :=
  lo + v * ((hi - lo) / INR (steps - 1)).

(** [torch.linspace(lo, hi, steps)] *)
Definition linspace (lo hi : R) (steps : nat) : list R :=
  map (fun i => grid_position lo hi steps (INR i)) (seq 0 steps).

(** [SDFRenderer.make_volume]:
<<
        steps = torch.linspace(min_coord, max_coord, resolution)
        xx, yy, zz = torch.meshgrid(steps, steps, steps, indexing="ij")
        return torch.vstack([xx.ravel(), yy.ravel(), zz.ravel()]).T.float()
>>
    the rows run over the grid with the last index fastest. *)
Definition make_volume (min_coord max_coord : R) (resolution : nat)
  : list vec3 :=
  let steps := linspace min_coord max_coord resolution in
  flat_map (fun x => flat_map (fun y => map (fun z => mkV x y z) steps)
                       steps) steps.

(** [SDFRenderer.sdf_functional]:
<<
        sample = query
        if self.deformation_model is not None:
            sample = self.deformation_model.transform(sample)
        model_out = self.shape_model(sample)
        return model_out['dist']
>> *)
Definition sdf_functional (shape_dist : vec3 -> R)
  (deformation : option (vec3 -> vec3)) (query : vec3) : R :=
  let sample :=
    match deformation with
    | Some transform => transform query
    | None => query
    end in
  shape_dist sample.

(** The chunks of at most [chunk] rows of a batch with rows left. *)
Fixpoint chunks {A : Type} (fuel chunk : nat) (l : list A) : list (list A) :=
  match fuel with
  | O => []
  | S fuel' =>
      match l with
      | [] => []
      | _ :: _ => firstn chunk l :: chunks fuel' chunk (skipn chunk l)
      end
  end.

(** [torch.split(t, chunk, dim=0)]: an empty tensor is one empty chunk; a
    chunk size of zero raises on any other tensor. *)
Definition torch_split {A : Type} (l : list A) (chunk : nat)
  : option (list (list A)) :=
  match l with
  | [] => Some [[]]
  | _ :: _ =>
      match chunk with
      | O => None
      | S _ => Some (chunks (length l) chunk l)
      end
  end.

(** [SDFRenderer.evaluate_model]:
<<
        f_eval = []
        for sample in tqdm(torch.split(pts_volume, self.config.chunk, dim=0)):
            f_eval.append(self.sdf_functional(sample.contiguous()).cpu())
        f_volume = torch.cat(f_eval, dim=0).reshape(resolution, resolution, resolution)
>>
    The volume is kept flat, in the order of the reshape; [None] is the
    error of the split or of a reshape of the wrong size. *)
Definition evaluate_model (sdf : vec3 -> R) (resolution chunk : nat)
  (pts_volume : list vec3) : option (list R) :=
  match torch_split pts_volume chunk with
  | None => None
  | Some samples =>
      let f_eval := map (map sdf) samples in
      let flat := concat f_eval in
      if (length flat =? resolution * resolution * resolution)%nat
      then Some flat
      else None
  end.

(** [f_volume[i, j, k]] *)
Definition volume_at (resolution : nat) (f_volume : list R)
  (i j k : nat) : option R :=
  nth_error f_volume ((i * resolution + j) * resolution + k).

(** The rescaling of a vertex coordinate in [extract_mesh]:
<<
            verts /= self.config.resolution // 2
            verts -= 1.0
>> *)
Definition rescale_vertex (resolution : nat) (v : R) : R :=
  v / INR (resolution / 2) - 1.

End SDFVolume.

(* ================================================================== *)
(** ** iarap/train/deform_trainer.py: loading the handles *)
(* ================================================================== *)

Module HandleSetup.

(** A numeric array of one, two or three axes.  [np.loadtxt] gives one
    axis for a file of a single row and two axes otherwise. *)
Inductive ndarray : Type :=
| Arr1 (row : list R)
| Arr2 (rows : list (list R))
| Arr3 (blocks : list (list (list R))).

(** What [setup_data] can raise. *)
Inductive setup_error : Type :=
| AssertionError
| FileError
| ValueError
| RuntimeError.

Inductive result (A : Type) : Type :=
| Ok (a : A)
| Err (e : setup_error).
Arguments Ok {A} a.
Arguments Err {A} e.

(** The handle specification: [handle_cfg['handles']] with its optional
    groups, the lists of file names under ['positions'] and
    ['transform']. *)
Record moving_group : Type := mkMoving {
  positions : list string;
  transform : list string }.

Record handle_groups : Type := mkGroups {
  static : option (list string);
  moving : option moving_group }.

(** [len(a.shape)] *)
Definition ndim (a : ndarray) : nat :=
  match a with
  | Arr1 _ => 1
  | Arr2 _ => 2
  | Arr3 _ => 3
  end.

(** The length of the second axis of a table. *)
Definition ncols (rows : list (list R)) : nat := length (hd [] rows).

(** [np.concatenate([a, b], axis=0)]: the arrays must have the same number
    of axes and agree on the other axes. *)
Definition concatenate2 (a b : ndarray) : result ndarray :=
  match a, b with
  | Arr1 x, Arr1 y => Ok (Arr1 (x ++ y))
  | Arr2 x, Arr2 y =>
      if (ncols x =? ncols y)%nat then Ok (Arr2 (x ++ y)) else Err ValueError
  | Arr3 x, Arr3 y => Ok (Arr3 (x ++ y))
  | _, _ => Err ValueError
  end.

(** [np.concatenate(arrays, axis=0)]; an empty list is an error. *)
Fixpoint concatenate (arrays : list ndarray) : result ndarray :=
  match arrays with
  | [] => Err ValueError
  | [a] => Ok a
  | a :: rest =>
      match concatenate rest with
      | Ok r => concatenate2 a r
      | Err e => Err e
      end
  end.

(** [np.expand_dims(a, 0)] *)
Definition expand_dims (a : ndarray) : ndarray :=
  match a with
  | Arr1 row => Arr2 [row]
  | Arr2 rows => Arr3 [rows]
  | Arr3 blocks => Arr3 blocks
  end.

(** [torch.cat([a, b], dim=-1)]: two tables of as many rows are joined
    row by row; a one-axis empty tensor is skipped; anything else is a
    shape error. *)
Definition torch_cat_last (a b : ndarray) : result ndarray :=
  match a, b with
  | Arr2 x, Arr2 y =>
      if (length x =? length y)%nat
      then Ok (Arr2 (zip_with (@app R) x y))
      else Err RuntimeError
  | Arr2 x, Arr1 [] => Ok (Arr2 x)
  | Arr1 [], Arr2 y => Ok (Arr2 y)
  | Arr1 x, Arr1 y => Ok (Arr1 (x ++ y))
  | _, _ => Err RuntimeError
  end.

Section SetupData.

(** The files under [parts/] and [transforms/], as [np.loadtxt] reads
    them; [None] is a file that cannot be read. *)
Variable parts : string -> option ndarray.
Variable transforms : string -> option ndarray.

(** [[np.loadtxt(dir / f"{f}.txt") for f in names]] *)
Fixpoint load_all (dir : string -> option ndarray) (names : list string)
  : result (list ndarray) :=
  match names with
  | [] => Ok []
  | f :: names' =>
      match dir f with
      | None => Err FileError
      | Some a =>
          match load_all dir names' with
          | Ok rest => Ok (a :: rest)
          | Err e => Err e
          end
      end
  end.

(** The static branch of [setup_data]:
<<
        if 'static' in handle_cfg['handles'].keys() and len(...['positions']) > 0:
            static = [np.loadtxt(handle_dir / "parts" / f"{f}.txt") for f in ...]
            static = np.concatenate(static, axis=0)
            if len(static.shape) < 2:
                static = np.expand_dims(static, 0)
            self.handles_static = torch.from_numpy(static).to(...)
        else:
            self.handles_static = torch.empty((0, 3), ...)
>> *)
Definition setup_static (names : option (list string)) : result ndarray :=
  match names with
  | Some (f :: names') =>
      match load_all parts (f :: names') with
      | Err e => Err e
      | Ok arrays =>
          match concatenate arrays with
          | Err e => Err e
          | Ok static =>
              Ok (if (ndim static <? 2)%nat then expand_dims static
                  else static)
          end
      end
  | _ => Ok (Arr2 [])
  end.

(** The moving branch of [setup_data]:
<<
        if 'moving' in handle_cfg['handles'].keys() and len(...['positions']) > 0:
            assert len(...['positions']) == len(...['transform']), ...
            moving = [np.loadtxt(handle_dir / "parts" / f"{f}.txt") for f in ...]
            transforms = [np.loadtxt(handle_dir / "transforms" / f"{f}.txt") for f in ...]
            moving = np.concatenate(moving, axis=0)
            transforms = np.concatenate(transforms, axis=0)
            if len(moving.shape) < 2:
                moving = np.expand_dims(moving, axis=0)
                transforms = np.expand_dims(transforms, axis=0)
            self.handles_moving = torch.cat([moving_pos, moving_trans], dim=-1)
        else:
            self.handles_moving = torch.empty((0, 6), ...)
>> *)
Definition setup_moving (group : option moving_group) : result ndarray :=
  match group with
  | Some (mkMoving (f :: names') transform_names) =>
      if negb (length (f :: names') =? length transform_names)%nat
      then Err AssertionError
      else
        match load_all parts (f :: names') with
        | Err e => Err e
        | Ok moving_arrays =>
            match load_all transforms transform_names with
            | Err e => Err e
            | Ok transform_arrays =>
                match concatenate moving_arrays with
                | Err e => Err e
                | Ok moving_cat =>
                    match concatenate transform_arrays with
                    | Err e => Err e
                    | Ok transforms_cat =>
                        if (ndim moving_cat <? 2)%nat
                        then torch_cat_last (expand_dims moving_cat)
                               (expand_dims transforms_cat)
                        else torch_cat_last moving_cat transforms_cat
                    end
                end
            end
        end
  | _ => Ok (Arr2 [])
  end.

(** [DeformTrainer.setup_data]: the pair of [self.handles_static] and
    [self.handles_moving]; [handle_cfg] is [None] when the file has no
    ['handles'] key. *)
Definition setup_data (handle_cfg : option handle_groups)
  : result (ndarray * ndarray) :=
  match handle_cfg with
  | None => Err AssertionError
  | Some groups =>
      match setup_static (static groups) with
      | Err e => Err e
      | Ok handles_static =>
          match setup_moving (moving groups) with
          | Err e => Err e
          | Ok handles_moving => Ok (handles_static, handles_moving)
          end
      end
  end.

End SetupData.

End HandleSetup.

(* ================================================================== *)
(** ** The sphere that [NeuralRTF] starts from *)
(* ================================================================== *)

Module SphereSDF.

(** The signed distance to the sphere of radius [r] about the origin, and
    its derivative [x / ||x||]. *)
Definition sphere (r : R) (x : vec3) : R := norm x - r.
Definition sphere_gradient (x : vec3) : vec3 := vscale (/ norm x) x.

(** [self.sdf_callable = lambda x: x.norm(dim=-1, keepdim=True) - 0.5],
    set by [NeuralRTF.__init__]. *)
Definition default_sdf_callable (x : vec3) : R := sphere (1 / 2) x.

End SphereSDF.

(* ================================================================== *)
(** ** A small handle directory *)
(* ================================================================== *)

Module HandleFiles.

Import HandleSetup.

(** Two files of several points and two files of a single point. *)
Definition parts (f : string) : option ndarray :=
  if String.eqb f "arm" then Some (Arr2 [[1; 0; 0]; [0; 1; 0]])
  else if String.eqb f "leg" then Some (Arr2 [[0; 0; 1]; [1; 1; 1]; [2; 2; 2]])
  else if String.eqb f "tip" then Some (Arr1 [5; 5; 5])
  else if String.eqb f "toe" then Some (Arr1 [6; 6; 6])
  else None.

(** Their transforms; the one of [leg] is a row short. *)
Definition transforms (f : string) : option ndarray :=
  if String.eqb f "arm" then Some (Arr2 [[1; 0; 1]; [0; 1; 1]])
  else if String.eqb f "leg" then Some (Arr2 [[0; 0; 2]; [1; 1; 2]])
  else if String.eqb f "tip" then Some (Arr1 [5; 5; 9])
  else if String.eqb f "toe" then Some (Arr1 [6; 6; 9])
  else None.

End HandleFiles.

(* ================================================================== *)
(** * Properties *)
(* ================================================================== *)

(** ** Linear algebra *)


Lemma vadd_zero_r (a : vec3) : vadd a vzero = a.
Proof. vec_ring. Qed.

Lemma vsub_zero_r (a : vec3) : vsub a vzero = a.
Proof. vec_ring. Qed.

Lemma vscale_zero_r (k : R) : vscale k vzero = vzero.
Proof. vec_ring. Qed.

Lemma vscale_zero_l (a : vec3) : vscale 0 a = vzero.
Proof. vec_ring. Qed.

Lemma sqnorm_zero : sqnorm vzero = 0.
Proof. vec_ring. Qed.

Lemma sqnorm_nonneg (a : vec3) : 0 <= sqnorm a.
Proof.
  destruct a as [x y z]; cbv [sqnorm vdot vx vy vz].
  pose proof (Rle_0_sqr x); pose proof (Rle_0_sqr y); pose proof (Rle_0_sqr z).
  unfold Rsqr in *; lra.
Qed.

Lemma norm_zero : norm vzero = 0.
Proof. unfold norm; rewrite sqnorm_zero; apply sqrt_0. Qed.

Lemma norm_nonneg (a : vec3) : 0 <= norm a.
Proof. unfold norm; apply sqrt_pos. Qed.

Lemma mapply_mid (v : vec3) : mapply mid v = v.
Proof. vec_ring. Qed.

Lemma mapply_vsub (M : mat3) (a b : vec3) :
  mapply M (vsub a b) = vsub (mapply M a) (mapply M b).
Proof. vec_ring. Qed.

Lemma mmul_assoc (A B C : mat3) : mmul (mmul A B) C = mmul A (mmul B C).
Proof. vec_ring. Qed.

Lemma mmul_mid_r (A : mat3) : mmul A mid = A.
Proof. vec_ring. Qed.

Lemma mtranspose_mmul (A B : mat3) :
  mtranspose (mmul A B) = mmul (mtranspose B) (mtranspose A).
Proof. vec_ring. Qed.

Lemma mdet_mmul (A B : mat3) : mdet (mmul A B) = mdet A * mdet B.
Proof. vec_ring. Qed.

Lemma proper_rotation_mid : proper_rotation mid.
Proof. split; vec_ring. Qed.

Lemma proper_rotation_mmul (A B : mat3) :
  proper_rotation A -> proper_rotation B -> proper_rotation (mmul A B).
Proof.
  intros [HA dA] [HB dB]; split.
  - rewrite mtranspose_mmul, mmul_assoc.
    rewrite <- (mmul_assoc B (mtranspose B) (mtranspose A)).
    rewrite HB.
    replace (mmul mid (mtranspose A)) with (mtranspose A) by vec_ring.
    exact HA.
  - rewrite mdet_mmul, dA, dB; ring.
Qed.

Lemma vsub_vscale_zero (k : R) (q : vec3) : vsub q (vscale k vzero) = q.
Proof. vec_ring. Qed.

(** ** Rotations from Euler angles *)

Import NeuralRTF.

Lemma proper_rotation_rot_x (c s : R) :
  c * c + s * s = 1 -> proper_rotation (rot_x c s).
Proof.
  intros H; split; cbv [rot_x mmul mtranspose mdet mid
    m00 m01 m02 m10 m11 m12 m20 m21 m22]; [f_equal|]; try ring;
  ring_simplify; try (rewrite <- H; ring).
Qed.

Lemma proper_rotation_rot_y (c s : R) :
  c * c + s * s = 1 -> proper_rotation (rot_y c s).
Proof.
  intros H; split; cbv [rot_y mmul mtranspose mdet mid
    m00 m01 m02 m10 m11 m12 m20 m21 m22]; [f_equal|]; try ring;
  ring_simplify; try (rewrite <- H; ring).
Qed.

Lemma proper_rotation_rot_z (c s : R) :
  c * c + s * s = 1 -> proper_rotation (rot_z c s).
Proof.
  intros H; split; cbv [rot_z mmul mtranspose mdet mid
    m00 m01 m02 m10 m11 m12 m20 m21 m22]; [f_equal|]; try ring;
  ring_simplify; try (rewrite <- H; ring).
Qed.

Lemma cos_sin_unit (a : R) : cos a * cos a + sin a * sin a = 1.
Proof. pose proof (sin2_cos2 a) as H; unfold Rsqr in H; lra. Qed.

Lemma proper_rotation_euler (euler : vec3) :
  proper_rotation (euler_to_rotation euler).
Proof.
  unfold euler_to_rotation.
  repeat apply proper_rotation_mmul.
  - apply proper_rotation_rot_z, cos_sin_unit.
  - apply proper_rotation_rot_y, cos_sin_unit.
  - apply proper_rotation_rot_x, cos_sin_unit.
Qed.

Example euler_zero_is_identity : euler_to_rotation vzero = mid.
Proof.
  unfold euler_to_rotation; cbv [vzero vx vy vz].
  rewrite cos_0, sin_0.
  cbv [rot_x rot_y rot_z mmul mid m00 m01 m02 m10 m11 m12 m20 m21 m22].
  f_equal; ring.
Qed.

Example euler_half_turn_about_z :
  euler_to_rotation (mkV 0 0 PI) = mkM (-1) 0 0  0 (-1) 0  0 0 1.
Proof.
  unfold euler_to_rotation; cbv [vx vy vz].
  rewrite cos_0, sin_0, cos_PI, sin_PI.
  cbv [rot_x rot_y rot_z mmul m00 m01 m02 m10 m11 m12 m20 m21 m22].
  f_equal; ring.
Qed.

(** C3.  Whatever the layers of the deformation network output at a point,
    the rotation that [forward] returns for it is a proper rotation: its
    product with its transpose is the identity and its determinant is 1.
    The Euler angles range over all reals, the boundary angles 0, pi and
    -pi included. *)
Theorem forward_rot_proper_rotation :
  forall (model : vec3 -> list R) (x_in : vec3),
    let Rm := rot (forward model x_in) in
    mmul Rm (mtranspose Rm) = mid /\ mdet Rm = 1.
Proof.
  intros model x_in Rm; subst Rm; unfold forward; cbn [rot].
  apply proper_rotation_euler.
Qed.

(** ** The level-set projector *)

Import SDFRenderer.

Lemma for_range_iter {A : Type} (n : nat) (body : A -> A) (x : A) :
  for_range n body x = Nat.iter n body x.
Proof.
  revert x; induction n as [|n IH]; intros x; [reflexivity|].
  cbn [for_range]; rewrite IH.
  symmetry; apply Nat.iter_succ_r.
Qed.

Lemma for_range_succ {A : Type} (n : nat) (body : A -> A) (x : A) :
  for_range (S n) body x = body (for_range n body x).
Proof. rewrite !for_range_iter; reflexivity. Qed.

Lemma zip_with_length {A B C : Type} (f : A -> B -> C) xs ys :
  length (zip_with f xs ys) = Nat.min (length xs) (length ys).
Proof.
  revert ys; induction xs as [|x xs IH]; intros [|y ys]; cbn; auto.
Qed.

Lemma project_round_pointwise sdf gradient level query :
  project_round sdf gradient level query
  = map (level_set_update sdf gradient level) query.
Proof.
  unfold project_round.
  induction query as [|q query IH]; [reflexivity|].
  cbn [map zip_with]; rewrite IH; reflexivity.
Qed.

Lemma project_round_length sdf gradient level query :
  length (project_round sdf gradient level query) = length query.
Proof. rewrite project_round_pointwise; apply length_map. Qed.

Lemma iter_preserves_length {A : Type} (f : list A -> list A) :
  (forall l, length (f l) = length l) ->
  forall n l, length (Nat.iter n f l) = length l.
Proof.
  intros Hf n l; induction n as [|n IH]; [reflexivity|].
  change (Nat.iter (S n) f l) with (f (Nat.iter n f l)).
  rewrite Hf; exact IH.
Qed.

Lemma project_nearest_iter sdf gradient query n level :
  project_nearest sdf gradient query n level
  = Nat.iter n (map (level_set_update sdf gradient level)) query.
Proof.
  unfold project_nearest; rewrite for_range_iter.
  induction n as [|n IH]; [reflexivity|].
  change (Nat.iter (S n) ?f ?x) with (f (Nat.iter n f x)).
  rewrite IH; apply project_round_pointwise.
Qed.

Lemma project_nearest_length sdf gradient query n level :
  length (project_nearest sdf gradient query n level) = length query.
Proof.
  rewrite project_nearest_iter; apply iter_preserves_length.
  intros l; apply length_map.
Qed.

(** C2.  [project_nearest] runs the loop body exactly [n_its] times: its
    result is the [n_its]-fold iterate of the update
    [p <- p - (f(p) - level) * normalize(grad f(p))] applied to every point
    of the batch.  No round is skipped whatever the current distances are
    (one more configured round is one more update of the previous result),
    no point is added or dropped, and with no round the points come back
    as they were given. *)
Theorem project_nearest_fixed_iterations :
  forall (sdf : vec3 -> R) (gradient : vec3 -> vec3)
         (query : list vec3) (n_its : nat) (level : R),
    project_nearest sdf gradient query n_its level
    = Nat.iter n_its (map (level_set_update sdf gradient level)) query
    /\ project_nearest sdf gradient query (S n_its) level
       = map (level_set_update sdf gradient level)
           (project_nearest sdf gradient query n_its level)
    /\ length (project_nearest sdf gradient query n_its level)
       = length query
    /\ project_nearest sdf gradient query 0 level = query.
Proof.
  intros sdf gradient query n_its level.
  split; [|split; [|split]].
  - apply project_nearest_iter.
  - rewrite !project_nearest_iter; reflexivity.
  - apply project_nearest_length.
  - reflexivity.
Qed.

(** *** Gradients near zero *)

Lemma normalize_eps_pos : 0 < normalize_eps.
Proof. unfold normalize_eps; apply Rinv_0_lt_compat, pow_lt; lra. Qed.

Lemma normalize_denom_pos (v : vec3) : 0 < normalize_denom v.
Proof.
  unfold normalize_denom.
  pose proof normalize_eps_pos; pose proof (Rmax_r (norm v) normalize_eps).
  lra.
Qed.

Lemma F_normalize_zero : F_normalize vzero = vzero.
Proof. unfold F_normalize; apply vscale_zero_r. Qed.

Lemma F_normalize_small (v : vec3) :
  norm v <= normalize_eps -> F_normalize v = vscale (/ normalize_eps) v.
Proof.
  intros H; unfold F_normalize, normalize_denom.
  rewrite Rmax_right by exact H; reflexivity.
Qed.

Lemma norm_along_x (a : R) : 0 <= a -> norm (mkV a 0 0) = a.
Proof.
  intros Ha; unfold norm, sqnorm, vdot; cbn [vx vy vz].
  replace (a * a + 0 * 0 + 0 * 0) with (a * a) by ring.
  apply sqrt_square; exact Ha.
Qed.

(** C7, as stated, fails: on the shallow ramp the gradient at the origin
    has norm [eps/2], yet one round of the projection moves the origin to
    [(-1/2, 0, 0)]. *)
Lemma near_zero_gradient_moves_point :
  norm (shallow_ramp_gradient vzero) < normalize_eps
  /\ project_nearest shallow_ramp shallow_ramp_gradient [vzero] 1 0
     = [mkV (- (1 / 2)) 0 0]
  /\ project_nearest shallow_ramp shallow_ramp_gradient [vzero] 1 0
     <> [vzero].
Proof.
  pose proof normalize_eps_pos as Hpos.
  assert (Hn : norm (shallow_ramp_gradient vzero) = normalize_eps / 2).
  { unfold shallow_ramp_gradient; apply norm_along_x; lra. }
  assert (E : project_nearest shallow_ramp shallow_ramp_gradient [vzero] 1 0
              = [mkV (- (1 / 2)) 0 0]).
  { unfold project_nearest; cbn [for_range].
    rewrite project_round_pointwise; cbn [map].
    unfold level_set_update.
    rewrite F_normalize_small by (rewrite Hn; lra).
    unfold shallow_ramp, shallow_ramp_gradient.
    cbv [vsub vscale vzero vx vy vz].
    f_equal; f_equal; field; lra. }
  split; [rewrite Hn; lra|].
  split; [exact E|].
  rewrite E; intros Heq.
  injection Heq as Hx; lra.
Qed.

(** C7, amended.  The normalization divides by [max(||g||, eps)], which is
    positive, so it never divides by zero; a batch whose gradients are all
    exactly zero is left unmoved by a round; a gradient that is not longer
    than [eps] is scaled by [1/eps], so its point moves by
    [(f(p) - level) * g / eps]. *)
Theorem zero_gradient_leaves_point :
  forall (sdf : vec3 -> R) (gradient : vec3 -> vec3)
         (level : R) (query : list vec3),
    (forall q, In q query -> gradient q = vzero) ->
    project_round sdf gradient level query = query
    /\ (forall q, 0 < normalize_denom (gradient q))
    /\ (forall q, norm (gradient q) <= normalize_eps ->
          level_set_update sdf gradient level q
          = vsub q (vscale ((sdf q - level) / normalize_eps) (gradient q))).
Proof.
  intros sdf gradient level query Hzero.
  split; [|split].
  - rewrite project_round_pointwise.
    rewrite <- (map_id query) at 2.
    apply map_ext_in; intros q Hq.
    unfold level_set_update.
    rewrite (Hzero q Hq), F_normalize_zero.
    apply vsub_vscale_zero.
  - intros q; apply normalize_denom_pos.
  - intros q Hq; unfold level_set_update.
    rewrite F_normalize_small by exact Hq.
    f_equal; unfold Rdiv; vec_ring.
Qed.

Lemma zero_gradient_leaves_point_witness :
  project_round (fun _ => 1) (fun _ => vzero) 0 [mkV 1 2 3; vzero]
  = [mkV 1 2 3; vzero].
Proof.
  apply (zero_gradient_leaves_point (fun _ => 1) (fun _ => vzero) 0
           [mkV 1 2 3; vzero]).
  intros q _; reflexivity.
Defined.

(** ** The zero-level-set sampler *)

Import ZeroLevelSetSampler.

Section SamplerFacts.

Variable rng : Type.
Variable rand : nat -> rng -> list vec3 * rng.
Variable distance : vec3 -> R.
Variable gradient : vec3 -> vec3.

Lemma firstn_app_short {A : Type} (n : nat) (l1 l2 : list A) :
  (n <= length l1)%nat -> firstn n (l1 ++ l2) = firstn n l1.
Proof.
  intros H; rewrite firstn_app.
  replace (n - length l1)%nat with 0%nat by lia.
  cbn [firstn]; apply app_nil_r.
Qed.

(** What [collect] returns, in terms of all the candidates its budget can
    produce. *)
Lemma collect_outcome (retries n attempts : nat) (threshold : R)
  (bounds : R * R) :
  forall (kept : list vec3) (g : rng),
    let found :=
      kept ++ budget_candidates rng rand distance retries attempts
                threshold bounds g in
    fst (collect rng rand distance retries n attempts threshold bounds
           kept g)
    = if (n <=? length found)%nat
      then Samples (firstn n found)
      else InsufficientSamples (length found).
Proof.
  induction retries as [|retries IH]; intros kept g found; subst found.
  - cbn [collect budget_candidates]; rewrite app_nil_r.
    destruct (n <=? length kept)%nat; reflexivity.
  - cbn [collect budget_candidates].
    destruct (draw_batch rng rand distance attempts threshold bounds g)
      as [survivors g'].
    destruct (n <=? length kept)%nat eqn:Hn.
    + apply Nat.leb_le in Hn.
      assert (Hle : (n <=? length
                 (kept ++ survivors ++
                  budget_candidates rng rand distance retries
                    attempts threshold bounds g'))%nat = true).
      { apply Nat.leb_le; rewrite length_app; lia. }
      rewrite Hle.
      cbn [fst]; f_equal; symmetry; apply firstn_app_short; exact Hn.
    + rewrite IH, app_assoc; reflexivity.
Qed.

Lemma sample_outcome (retry_budget n : nat) (threshold : R)
  (attempts : nat) (bounds : R * R) (num_projections : nat) (g : rng) :
  let found :=
    budget_candidates rng rand distance retry_budget attempts
      threshold bounds g in
  fst (sample_zero_level_set rng rand distance gradient retry_budget
         n threshold attempts bounds num_projections g)
  = if (n <=? length found)%nat
    then Samples (project_nearest distance gradient (firstn n found)
                    num_projections 0)
    else InsufficientSamples (length found).
Proof.
  intros found; unfold sample_zero_level_set.
  pose proof (collect_outcome retry_budget n attempts threshold bounds
                [] g) as H.
  cbn [app] in H; fold found in H.
  destruct (collect rng rand distance retry_budget n attempts threshold
              bounds [] g) as [[pts | k] g'];
    cbn [fst] in H |- *;
    destruct (n <=? length found)%nat; try discriminate;
    inversion H; reflexivity.
Qed.

End SamplerFacts.

(** C5.  With [found] the near-surface candidates that the batches of the
    budget contain: when they are at least [n] the sampler returns points,
    exactly [n] of them; when they are fewer it returns the
    insufficient-samples failure, never a shorter list.  So a returned list
    always has [n] points, and the failure always reports fewer than
    [n]. *)
Theorem sampler_exact_count_or_failure :
  forall (rng : Type) (rand : nat -> rng -> list vec3 * rng)
         (distance : vec3 -> R) (gradient : vec3 -> vec3)
         (retry_budget n : nat) (threshold : R) (attempts : nat)
         (bounds : R * R) (num_projections : nat) (g : rng),
    let found :=
      budget_candidates rng rand distance retry_budget attempts
        threshold bounds g in
    let result :=
      fst (sample_zero_level_set rng rand distance gradient retry_budget
             n threshold attempts bounds num_projections g) in
    ((n <= length found)%nat ->
       exists points, result = Samples points /\ length points = n)
    /\ ((length found < n)%nat ->
          result = InsufficientSamples (length found))
    /\ (forall points, result = Samples points -> length points = n)
    /\ (forall k, result = InsufficientSamples k -> (k < n)%nat).
Proof.
  intros rng rand distance gradient retry_budget n threshold attempts
    bounds num_projections g found result.
  assert (Hlen : forall l, (n <= length l)%nat ->
            length (project_nearest distance gradient (firstn n l)
                      num_projections 0) = n).
  { intros l Hl; rewrite project_nearest_length, length_firstn; lia. }
  pose proof (sample_outcome rng rand distance gradient retry_budget n
                threshold attempts bounds num_projections g) as H.
  cbn zeta in H; fold found in H; fold result in H.
  destruct (n <=? length found)%nat eqn:Hn.
  - apply Nat.leb_le in Hn.
    split; [|split; [|split]].
    + intros _; eexists; split; [exact H|]; apply Hlen; exact Hn.
    + intros Hlt; lia.
    + intros points Hp; rewrite H in Hp; inversion Hp; subst.
      apply Hlen; exact Hn.
    + intros k Hk; rewrite H in Hk; discriminate.
  - apply Nat.leb_gt in Hn.
    split; [|split; [|split]].
    + intros Hle; lia.
    + intros _; exact H.
    + intros points Hp; rewrite H in Hp; discriminate.
    + intros k Hk; rewrite H in Hk; inversion Hk; subst; exact Hn.
Qed.

Lemma near_surface_flat (threshold : R) (p : vec3) :
  0 < threshold -> near_surface (fun _ => 0) threshold p = true.
Proof.
  intros H; unfold near_surface.
  destruct (Rlt_dec (Rabs 0) threshold) as [_|Hn]; [reflexivity|].
  exfalso; apply Hn; rewrite Rabs_R0; exact H.
Qed.

Lemma sampler_exact_count_or_failure_witness :
  (2 <= length
          (budget_candidates nat (fun n g => (repeat vzero n, S g))
             (fun _ => 0%R) 1 3 1%R ((-1)%R, 1%R) 0%nat))%nat
  /\ exists points,
       fst (sample_zero_level_set nat (fun n g => (repeat vzero n, S g))
              (fun _ => 0) (fun _ => vzero) 1 2 1 3 (-1, 1) 5 0%nat)
       = Samples points
       /\ length points = 2%nat.
Proof.
  assert (H : (2 <= length
             (budget_candidates nat (fun n g => (repeat vzero n, S g))
                (fun _ => 0%R) 1 3 1%R ((-1)%R, 1%R) 0%nat))%nat).
  { cbn [budget_candidates draw_batch repeat map filter].
    rewrite !near_surface_flat by lra.
    cbn [app length]; lia. }
  split; [exact H|].
  exact (proj1 (sampler_exact_count_or_failure nat
                  (fun n g => (repeat vzero n, S g))
                  (fun _ => 0) (fun _ => vzero) 1 2 1 3 (-1, 1) 5 0%nat) H).
Defined.

Example sampler_reports_insufficient :
  fst (sample_zero_level_set nat (fun n g => (repeat vzero n, S g))
         (fun _ => 0) (fun _ => vzero) 1 5 1 3 (-1, 1) 5 0%nat)
  = InsufficientSamples 3.
Proof.
  rewrite sample_outcome.
  cbn [budget_candidates draw_batch repeat map filter].
  rewrite !near_surface_flat by lra.
  reflexivity.
Qed.

(** ** The rigidity term *)

Import PatchARAPLoss.

Lemma edge_error_rigid (Rg : mat3) (tg vi vj : vec3) :
  edge_error Rg (vsub (deformed Rg tg vi) (deformed Rg tg vj)) (vsub vi vj)
  = 0.
Proof. unfold edge_error, deformed; vec_ring. Qed.

Lemma sum_list_zeros (l : list R) :
  Forall (fun x => x = 0) l -> sum_list l = 0.
Proof.
  induction 1 as [|x l Hx _ IH]; cbn [sum_list]; [reflexivity|].
  rewrite Hx, IH; ring.
Qed.

Lemma aggregate_zeros (r : reduction) (l : list R) :
  Forall (fun x => x = 0) l ->
  (r = Mean -> l <> []) ->
  aggregate r l = Finite 0.
Proof.
  intros Hz Hne; destruct r; cbn [aggregate].
  - unfold tensor_mean.
    destruct l as [|x l]; [exfalso; apply Hne; reflexivity|].
    rewrite (sum_list_zeros _ Hz); f_equal; unfold Rdiv; ring.
  - unfold tensor_sum; rewrite (sum_list_zeros _ Hz); reflexivity.
Qed.

Lemma nth_error_some_lt {A : Type} (l : list A) (i : nat) :
  (i < length l)%nat -> exists x, nth_error l i = Some x.
Proof.
  intros H; destruct (nth_error l i) eqn:E; [eauto|].
  apply nth_error_None in E; lia.
Qed.

(** The two errors of an edge both vanish under a global rigid motion. *)
Lemma edge_terms_rigid (Rg : mat3) (tg : vec3) (V : list vec3) (i j : nat) :
  (i < length V)%nat -> (j < length V)%nat ->
  edge_terms V (map (fun _ => Rg) V) (map (fun _ => tg) V) (i, j)
  = Some [0; 0].
Proof.
  intros Hi Hj; unfold edge_terms.
  destruct (nth_error_some_lt V i Hi) as [vi Ei].
  destruct (nth_error_some_lt V j Hj) as [vj Ej].
  rewrite !nth_error_map, Ei, Ej; cbn [option_map].
  rewrite edge_error_rigid; reflexivity.
Qed.

Lemma patch_terms_rigid (Rg : mat3) (tg : vec3) (V : list vec3)
  (edges : list edge) :
  Forall (edge_in_range V) edges ->
  exists terms,
    patch_terms V (map (fun _ => Rg) V) (map (fun _ => tg) V) edges
    = Some terms
    /\ Forall (fun x => x = 0) terms.
Proof.
  induction 1 as [|[i j] edges [Hi Hj] _ (terms & E & Hz)];
    cbn [patch_terms].
  - exists []; split; [reflexivity | constructor].
  - cbn [fst snd] in Hi, Hj.
    rewrite (edge_terms_rigid Rg tg V i j Hi Hj), E.
    eexists; split; [reflexivity|].
    cbn [app]; repeat constructor; exact Hz.
Qed.

Lemma rigidity_terms_rigid (Rg : mat3) (tg : vec3)
  (verts : list (list vec3)) (edges : list edge) :
  Forall (fun V => Forall (edge_in_range V) edges) verts ->
  exists terms,
    rigidity_terms verts (map (map (fun _ => Rg)) verts)
      (map (map (fun _ => tg)) verts) edges = Some terms
    /\ Forall (fun x => x = 0) terms.
Proof.
  induction 1 as [|V verts HV _ (rest & E & Hz)];
    cbn [rigidity_terms map].
  - exists []; split; [reflexivity | constructor].
  - destruct (patch_terms_rigid Rg tg V edges HV) as (terms & Ep & Hzp).
    rewrite Ep, E.
    eexists; split; [reflexivity|].
    apply Forall_app; split; assumption.
Qed.

(** Every edge of every patch contributes two terms. *)
Lemma patch_terms_length V Rs Ts (edges : list edge) (terms : list R) :
  patch_terms V Rs Ts edges = Some terms ->
  length terms = (2 * length edges)%nat.
Proof.
  revert terms; induction edges as [|[i j] edges IH]; intros terms;
    cbn [patch_terms].
  - intros H; inversion H; reflexivity.
  - destruct (edge_terms V Rs Ts (i, j)) as [a|] eqn:Ea; [|discriminate].
    destruct (patch_terms V Rs Ts edges) as [b|]; [|discriminate].
    intros H; inversion H; subst terms.
    assert (length a = 2%nat).
    { unfold edge_terms in Ea.
      destruct (nth_error V i), (nth_error V j), (nth_error Rs i),
        (nth_error Rs j), (nth_error Ts i), (nth_error Ts j);
        try discriminate.
      inversion Ea; reflexivity. }
    rewrite length_app, (IH b eq_refl); cbn [length]; lia.
Qed.

Lemma rigidity_terms_length verts rotations translations
  (edges : list edge) (terms : list R) :
  rigidity_terms verts rotations translations edges = Some terms ->
  length terms = (2 * length edges * length verts)%nat.
Proof.
  revert rotations translations terms.
  induction verts as [|V verts IH];
    intros [|Rs rotations] [|Ts translations] terms;
    cbn [rigidity_terms]; try discriminate.
  - intros H; inversion H; cbn [length]; lia.
  - destruct (patch_terms V Rs Ts edges) as [a|] eqn:Ea; [|discriminate].
    destruct (rigidity_terms verts rotations translations edges)
      as [b|] eqn:Eb; [|discriminate].
    intros H; inversion H; subst terms.
    rewrite length_app, (patch_terms_length _ _ _ _ _ Ea),
      (IH _ _ _ Eb); cbn [length]; lia.
Qed.

Lemma edges_of_in_range (V : list vec3)
  (triangles : list (nat * nat * nat)) :
  (forall a b c, In (a, b, c) triangles ->
     (a < length V)%nat /\ (b < length V)%nat /\ (c < length V)%nat) ->
  Forall (edge_in_range V) (edges_of triangles).
Proof.
  intros H; apply Forall_forall; intros e He.
  unfold edges_of in He; apply nodup_In in He.
  apply in_flat_map in He; destruct He as ([[a b] c] & Ht & He).
  destruct (H a b c Ht) as (Ha & Hb & Hc).
  unfold edge_in_range, mk_edge in *.
  cbn [In] in He.
  destruct He as [<- | [<- | [<- | []]]]; cbn [fst snd]; lia.
Qed.

Lemma edges_of_nonempty (triangles : list (nat * nat * nat)) :
  triangles <> [] -> edges_of triangles <> [].
Proof.
  destruct triangles as [|[[a b] c] rest]; [congruence|].
  intros _ He.
  assert (Hin : In (mk_edge a b) (edges_of ((a, b, c) :: rest))).
  { unfold edges_of; apply nodup_In; cbn [flat_map app In]; auto. }
  rewrite He in Hin; exact Hin.
Qed.

Import ARAPEnergy.

Lemma sum_list_app (a b : list R) :
  sum_list (a ++ b) = sum_list a + sum_list b.
Proof.
  induction a as [|x a IH]; cbn [app sum_list]; [ring|].
  rewrite IH; ring.
Qed.

(** The two terms of an edge add up to its energy. *)
Lemma edge_terms_energy V Rs Ts (e : edge) (terms : list R) :
  edge_terms V Rs Ts e = Some terms ->
  sum_list terms = edge_energy V Rs Ts e.
Proof.
  destruct e as [i j]; unfold edge_terms, edge_energy; cbn [fst snd].
  destruct (nth_error V i) as [vi|] eqn:Evi; [|discriminate].
  destruct (nth_error V j) as [vj|] eqn:Evj; [|discriminate].
  destruct (nth_error Rs i) as [Ri|] eqn:ERi; [|discriminate].
  destruct (nth_error Rs j) as [Rj|] eqn:ERj; [|discriminate].
  destruct (nth_error Ts i) as [ti|] eqn:Eti; [|discriminate].
  destruct (nth_error Ts j) as [tj|] eqn:Etj; [|discriminate].
  intros H; injection H as <-.
  rewrite (nth_error_nth V i vzero Evi), (nth_error_nth V j vzero Evj),
    (nth_error_nth Rs i mid ERi), (nth_error_nth Rs j mid ERj),
    (nth_error_nth Ts i vzero Eti), (nth_error_nth Ts j vzero Etj).
  cbn [sum_list]; ring.
Qed.

Lemma patch_terms_energy V Rs Ts (edges : list edge) (terms : list R) :
  patch_terms V Rs Ts edges = Some terms ->
  sum_list terms = patch_energy V Rs Ts edges.
Proof.
  unfold patch_energy; revert terms.
  induction edges as [|e edges IH]; intros terms; cbn [patch_terms map].
  - intros H; injection H as <-; reflexivity.
  - destruct (edge_terms V Rs Ts e) as [a|] eqn:Ea; [|discriminate].
    destruct (patch_terms V Rs Ts edges) as [b|]; [|discriminate].
    intros H; injection H as <-.
    cbn [sum_list]; rewrite sum_list_app, (edge_terms_energy _ _ _ _ _ Ea),
      (IH b eq_refl); reflexivity.
Qed.

Lemma rigidity_terms_energy verts rotations translations
  (edges : list edge) (terms : list R) :
  rigidity_terms verts rotations translations edges = Some terms ->
  sum_list terms = total_energy verts rotations translations edges.
Proof.
  revert rotations translations terms.
  induction verts as [|V verts IH];
    intros [|Rs rotations] [|Ts translations] terms;
    cbn [rigidity_terms total_energy]; try discriminate.
  - intros H; injection H as <-; reflexivity.
  - destruct (patch_terms V Rs Ts edges) as [a|] eqn:Ea; [|discriminate].
    destruct (rigidity_terms verts rotations translations edges)
      as [b|] eqn:Eb; [|discriminate].
    intros H; injection H as <-.
    rewrite sum_list_app, (patch_terms_energy _ _ _ _ _ Ea), (IH _ _ _ Eb).
    reflexivity.
Qed.

(** The value the loss returns, from the terms it accumulated. *)
Lemma rigidity_term_value (r : reduction) verts triangles rotations
  translations (terms : list R) :
  rigidity_terms verts rotations translations (edges_of triangles)
  = Some terms ->
  rigidity_term r verts triangles rotations translations
  = Some (match r with
          | Sum => Finite (total_energy verts rotations translations
                             (edges_of triangles))
          | Mean =>
              match terms with
              | [] => NaN
              | _ :: _ =>
                  Finite (total_energy verts rotations translations
                            (edges_of triangles) / INR (length terms))
              end
          end).
Proof.
  intros E; unfold rigidity_term; rewrite E; cbn [option_map].
  pose proof (rigidity_terms_energy _ _ _ _ _ E) as Hs.
  destruct r; cbn [aggregate]; unfold tensor_mean, tensor_sum.
  - destruct terms; [reflexivity|]; rewrite Hs; reflexivity.
  - rewrite Hs; reflexivity.
Qed.

(** C1.  When every vertex of every patch receives the rotation [Rg] and
    the translation [tg], the rigidity term is zero whatever the vertex
    positions are (the triangulation indexes vertices of the patches, and
    the mean is taken over at least one term).  And in general the
    rigidity term is accumulated from two terms per edge and patch, the
    error of the deformed edge against the original edge rotated by the
    rotation of its first end and the one against it rotated by the
    rotation of its second end: the returned sum is the sum over the
    patches and over the edges of the triangulation of these two errors,
    the returned mean that sum divided by the number of terms, twice the
    number of edges times the number of patches; no edge is listed
    twice. *)
Theorem rigidity_zero_under_global_rigid_motion :
  forall (r : reduction) (verts : list (list vec3))
         (triangles : list (nat * nat * nat)) (Rg : mat3) (tg : vec3),
    (forall V a b c, In V verts -> In (a, b, c) triangles ->
       (a < length V)%nat /\ (b < length V)%nat /\ (c < length V)%nat) ->
    (r = Mean -> verts <> [] /\ triangles <> []) ->
    rigidity_term r verts triangles
      (map (map (fun _ => Rg)) verts) (map (map (fun _ => tg)) verts)
    = Some (Finite 0)
    /\ NoDup (edges_of triangles)
    /\ (forall rotations translations terms,
          rigidity_terms verts rotations translations (edges_of triangles)
          = Some terms ->
          length terms
          = (2 * length (edges_of triangles) * length verts)%nat
          /\ sum_list terms
             = total_energy verts rotations translations
                 (edges_of triangles)
          /\ rigidity_term Sum verts triangles rotations translations
             = Some (Finite (total_energy verts rotations translations
                               (edges_of triangles)))
          /\ (terms <> [] ->
              rigidity_term Mean verts triangles rotations translations
              = Some (Finite (total_energy verts rotations translations
                                (edges_of triangles)
                              / INR (2 * length (edges_of triangles)
                                     * length verts)))))
    /\ (forall V Rs Ts (e : edge),
          edge_energy V Rs Ts e
          = edge_error (nth (fst e) Rs mid)
              (vsub (deformed (nth (fst e) Rs mid) (nth (fst e) Ts vzero)
                       (nth (fst e) V vzero))
                    (deformed (nth (snd e) Rs mid) (nth (snd e) Ts vzero)
                       (nth (snd e) V vzero)))
              (vsub (nth (fst e) V vzero) (nth (snd e) V vzero))
            + edge_error (nth (snd e) Rs mid)
                (vsub (deformed (nth (fst e) Rs mid) (nth (fst e) Ts vzero)
                         (nth (fst e) V vzero))
                      (deformed (nth (snd e) Rs mid) (nth (snd e) Ts vzero)
                         (nth (snd e) V vzero)))
                (vsub (nth (fst e) V vzero) (nth (snd e) V vzero)))
    /\ (forall V Rs Ts i j vi vj Ri Rj ti tj,
          nth_error V i = Some vi -> nth_error V j = Some vj ->
          nth_error Rs i = Some Ri -> nth_error Rs j = Some Rj ->
          nth_error Ts i = Some ti -> nth_error Ts j = Some tj ->
          edge_terms V Rs Ts (i, j)
          = Some [edge_error Ri
                    (vsub (deformed Ri ti vi) (deformed Rj tj vj))
                    (vsub vi vj);
                  edge_error Rj
                    (vsub (deformed Ri ti vi) (deformed Rj tj vj))
                    (vsub vi vj)]).
Proof.
  intros r verts triangles Rg tg Hvalid Hmean.
  split; [|split; [|split; [|split]]].
  - assert (Hr : Forall (fun V => Forall (edge_in_range V)
                                    (edges_of triangles)) verts).
    { apply Forall_forall; intros V HV.
      apply edges_of_in_range; intros a b c Ht.
      exact (Hvalid V a b c HV Ht). }
    destruct (rigidity_terms_rigid Rg tg verts (edges_of triangles) Hr)
      as (terms & E & Hz).
    unfold rigidity_term; rewrite E; cbn [option_map].
    f_equal; apply aggregate_zeros; [exact Hz|].
    intros Hm; destruct (Hmean Hm) as [Hv Ht].
    pose proof (rigidity_terms_length _ _ _ _ _ E) as Hlen.
    pose proof (edges_of_nonempty triangles Ht) as He.
    intros ->; cbn [length] in Hlen.
    destruct verts; [congruence|].
    destruct (edges_of triangles); [congruence|].
    cbn [length] in Hlen; lia.
  - apply NoDup_nodup.
  - intros rotations translations terms E.
    pose proof (rigidity_terms_length _ _ _ _ _ E) as Hlen.
    split; [exact Hlen|].
    split; [exact (rigidity_terms_energy _ _ _ _ _ E)|].
    split; [exact (rigidity_term_value Sum _ _ _ _ _ E)|].
    intros Hne.
    rewrite (rigidity_term_value Mean _ _ _ _ _ E), <- Hlen.
    destruct terms; [congruence | reflexivity].
  - intros V Rs Ts e; reflexivity.
  - intros V Rs Ts i j vi vj Ri Rj ti tj Evi Evj ERi ERj Eti Etj.
    unfold edge_terms; rewrite Evi, Evj, ERi, ERj, Eti, Etj; reflexivity.
Qed.

Lemma rigidity_zero_under_global_rigid_motion_witness :
  rigidity_term Mean
    [[mkV 0 0 0; mkV 1 0 0; mkV 0 1 0; mkV 1 1 2]]
    [(0%nat, 1%nat, 2%nat); (1%nat, 3%nat, 2%nat)]
    (map (map (fun _ => mkM 0 (-1) 0  1 0 0  0 0 1))
       [[mkV 0 0 0; mkV 1 0 0; mkV 0 1 0; mkV 1 1 2]])
    (map (map (fun _ => mkV 5 0 7))
       [[mkV 0 0 0; mkV 1 0 0; mkV 0 1 0; mkV 1 1 2]])
  = Some (Finite 0).
Proof.
  apply (rigidity_zero_under_global_rigid_motion Mean
           [[mkV 0 0 0; mkV 1 0 0; mkV 0 1 0; mkV 1 1 2]]
           [(0%nat, 1%nat, 2%nat); (1%nat, 3%nat, 2%nat)]
           (mkM 0 (-1) 0  1 0 0  0 0 1) (mkV 5 0 7)).
  - intros V a b c [<- | []] [Ht | [Ht | []]];
      inversion Ht; subst; cbn [length]; lia.
  - intros _; split; discriminate.
Defined.

(** A non-rigid prediction is penalized: the second vertex alone is
    translated, and the edge between the two vertices is counted under
    both ends. *)
Example rigidity_terms_of_a_sheared_edge :
  edge_terms [mkV 0 0 0; mkV 1 0 0] [mid; mid] [vzero; mkV 0 1 0]
    (0%nat, 1%nat)
  = Some [1; 1].
Proof.
  cbn [edge_terms nth_error]; unfold edge_error, deformed.
  f_equal; f_equal; [|f_equal]; vec_ring.
Qed.

(** The same prediction through the loss: the returned sum is the two
    errors of the one edge of the one patch. *)
Example rigidity_term_of_a_sheared_triangle :
  rigidity_term Sum [[mkV 0 0 0; mkV 1 0 0; mkV 0 1 0]]
    [(0%nat, 1%nat, 2%nat)]
    [[mid; mid; mid]] [[vzero; mkV 0 1 0; vzero]]
  = Some (Finite 4).
Proof.
  unfold rigidity_term, edges_of; cbn [flat_map app nodup].
  cbv [mk_edge Nat.min Nat.max].
  repeat (destruct (in_dec edge_eq_dec _ _) as [Hin | _];
          [cbn [In] in Hin; exfalso;
           repeat (destruct Hin as [Hin | Hin]; [discriminate|]);
           exact Hin|]).
  cbn [rigidity_terms patch_terms edge_terms nth_error app option_map
       aggregate]; unfold tensor_sum; cbn [sum_list].
  do 2 f_equal; unfold edge_error, deformed; vec_ring.
Qed.

(** ** The handle term *)



(** ** The training step *)

Import DeformTrainer.

Lemma for_range_map {A : Type} (n : nat) (f : A -> A) (l : list A) :
  for_range n (map f) l = map (Nat.iter n f) l.
Proof.
  induction n as [|n IH].
  - cbn [for_range]; symmetry; apply map_id.
  - rewrite for_range_succ, IH, map_map; reflexivity.
Qed.

Lemma for_range_length {A : Type} (n : nat) (body : list A -> list A) :
  (forall l, length (body l) = length l) ->
  forall l, length (for_range n body l) = length l.
Proof.
  intros H l; rewrite for_range_iter; apply iter_preserves_length; exact H.
Qed.

Lemma nth_error_zip_with {A B C : Type} (f : A -> B -> C) xs ys i :
  nth_error (zip_with f xs ys) i
  = match nth_error xs i, nth_error ys i with
    | Some x, Some y => Some (f x y)
    | _, _ => None
    end.
Proof.
  revert ys i; induction xs as [|x xs IH]; intros [|y ys] [|i];
    cbn [zip_with nth_error]; try reflexivity.
  - destruct (nth_error xs i); reflexivity.
  - apply IH.
Qed.

Lemma zip_with_zip_with_l {A B C D : Type} (f : C -> B -> D)
  (h : A -> B -> C) xs ys :
  zip_with f (zip_with h xs ys) ys = zip_with (fun x y => f (h x y) y) xs ys.
Proof.
  revert ys; induction xs as [|x xs IH]; intros [|y ys];
    cbn [zip_with]; try reflexivity.
  rewrite IH; reflexivity.
Qed.

Lemma zip_with_ext {A B C : Type} (f h : A -> B -> C) xs ys :
  (forall x y, f x y = h x y) -> zip_with f xs ys = zip_with h xs ys.
Proof.
  intros H; revert ys; induction xs as [|x xs IH]; intros [|y ys];
    cbn [zip_with]; try reflexivity.
  rewrite H, IH; reflexivity.
Qed.

Lemma zip_with_fst_id {A B : Type} (xs : list A) (ys : list B) :
  (length xs <= length ys)%nat -> zip_with (fun x _ => x) xs ys = xs.
Proof.
  revert ys; induction xs as [|x xs IH]; intros [|y ys] H;
    cbn [zip_with length] in *; try reflexivity; try lia.
  rewrite IH by lia; reflexivity.
Qed.

(** The handle index tensor: row [i], vertex 0. *)
Lemma handle_idx_rows (start h : nat) :
  combine (seq start h) (repeat 0%nat h)
  = map (fun i => (i, 0%nat)) (seq start h).
Proof.
  revert start; induction h as [|h IH]; intros start; [reflexivity|].
  cbn [seq repeat combine map]; rewrite IH; reflexivity.
Qed.

Lemma zip_with_map_map {A B C D : Type} (f : B -> C -> D)
  (g : A -> B) (h : A -> C) (xs : list A) :
  zip_with f (map g xs) (map h xs) = map (fun x => f (g x) (h x)) xs.
Proof.
  induction xs as [|x xs IH]; [reflexivity|].
  cbn [map zip_with]; rewrite IH; reflexivity.
Qed.

Lemma zip_with_map_l {A B C : Type} (f : B -> A -> C) (g : A -> B)
  (xs : list A) :
  zip_with f (map g xs) xs = map (fun x => f (g x) x) xs.
Proof.
  induction xs as [|x xs IH]; [reflexivity|].
  cbn [map zip_with]; rewrite IH; reflexivity.
Qed.

Lemma firstn_length_app {A : Type} (a b : list A) :
  firstn (length a) (a ++ b) = a.
Proof.
  rewrite firstn_app, firstn_all, Nat.sub_diag; cbn [firstn].
  apply app_nil_r.
Qed.

Lemma skipn_length_app {A : Type} (a b : list A) :
  skipn (length a) (a ++ b) = b.
Proof.
  rewrite skipn_app, skipn_all, Nat.sub_diag; reflexivity.
Qed.

Lemma firstn_seq_add (m k start : nat) :
  firstn m (seq start (m + k)) = seq start m.
Proof.
  revert start; induction m as [|m IH]; intros start; [reflexivity|].
  cbn [Nat.add seq firstn]; rewrite IH; reflexivity.
Qed.

Lemma skipn_seq_add (m k start : nat) :
  skipn m (seq start (m + k)) = seq (start + m) k.
Proof.
  rewrite skipn_seq; f_equal; lia.
Qed.

Section StepFacts.

Variable rng : Type.
Variable rand : nat -> rng -> list vec3 * rng.
Variable sdf_distance : module_params -> vec3 -> R.
Variable sdf_gradient : module_params -> vec3 -> vec3.
Variable sdf_tangent_plane : module_params -> vec3 -> mat3.
Variable sdf_sample_zero_level_set :
  module_params -> Z -> R -> nat -> R * R -> nat -> rng ->
  sample_result * rng.
Variable rtf_network : module_params -> vec3 -> list R.
Variable point_dist_fn : nat -> R -> rng -> list vec3 * rng.
Variable triangulation_fn : list (R * R) -> list (nat * nat * nat).

Local Abbreviation locals_of :=
  (train_step_locals rng rand sdf_distance sdf_gradient sdf_tangent_plane
     sdf_sample_zero_level_set rtf_network point_dist_fn triangulation_fn).

(** One projection step of the shape network, on a point. *)
Local Abbreviation step_to src level :=
  (level_set_update (sdf_distance src) (sdf_gradient src) level).

Lemma source_project_nearest_pointwise src points :
  source_project_nearest sdf_distance sdf_gradient src points
  = map (step_to src 0) points.
Proof. apply project_round_pointwise. Qed.

Lemma projected_handles src n points :
  for_range n (source_project_nearest sdf_distance sdf_gradient src) points
  = map (Nat.iter n (step_to src 0)) points.
Proof.
  rewrite <- for_range_map; rewrite !for_range_iter.
  induction n as [|n IH]; [reflexivity|].
  change (Nat.iter (S n) ?f ?x) with (f (Nat.iter n f x)).
  rewrite IH; apply source_project_nearest_pointwise.
Qed.

Lemma source_project_level_sets_pointwise src verts levels :
  source_project_level_sets sdf_distance sdf_gradient src verts levels
  = zip_with (fun patch level => map (step_to src level) patch)
      verts levels.
Proof.
  unfold source_project_level_sets; apply zip_with_ext.
  intros patch level; apply project_round_pointwise.
Qed.

Lemma projected_patches src n verts levels :
  (length verts <= length levels)%nat ->
  for_range n
    (fun v => source_project_level_sets sdf_distance sdf_gradient src
                v levels) verts
  = zip_with (fun patch level => map (Nat.iter n (step_to src level)) patch)
      verts levels.
Proof.
  intros Hlen; induction n as [|n IH].
  - cbn [for_range Nat.iter].
    rewrite (zip_with_ext _ (fun x _ => x)).
    + symmetry; apply zip_with_fst_id; exact Hlen.
    + intros patch level; apply map_id.
  - rewrite for_range_succ, IH, source_project_level_sets_pointwise.
    rewrite zip_with_zip_with_l; apply zip_with_ext.
    intros patch level; rewrite map_map; reflexivity.
Qed.

(** The values of the local variables of a step that reaches the loss,
    point by point. *)
Lemma locals_returned (self : trainer) (g g' : rng) (L : locals) :
  locals_of self g = (Returned L, g') ->
  let cfg := config self in
  let src := source self in
  let n := num_projections cfg in
  let handles :=
    map (Nat.iter n (step_to src 0)) (map fst (handles_moving self))
    ++ map (Nat.iter n (step_to src 0)) (handles_static self) in
  exists sampled g1 space_sample g2,
    let plane :=
      fst (point_dist_fn (delaunay_sample cfg) (plane_coords_scale cfg)
             g2) in
    let lift s := map (fun c => vadd (mapply (sdf_tangent_plane src s) c) s)
                      plane in
    sdf_sample_zero_level_set src
      (zero_samples cfg - Z.of_nat (length handles))%Z
      (near_surface_threshold cfg) (attempts_per_step cfg)
      (domain_bounds cfg) n g = (Samples sampled, g1)
    /\ sample_domain rng rand self (space_samples cfg) g1
       = (space_sample, g2)
    /\ l_handles L = handles
    /\ l_handle_values L
       = map snd (handles_moving self)
         ++ map (Nat.iter n (step_to src 0)) (handles_static self)
    /\ l_samples L = (handles ++ sampled) ++ space_sample
    /\ l_sample_dist L = map (sdf_distance src) (l_samples L)
    /\ l_plane_coords L = plane
    /\ l_triangles L = triangulation_fn (map (fun p => (vx p, vy p)) plane)
    /\ l_tangent_pts L = map lift (l_samples L)
    /\ l_level_set_verts L
       = map (fun s =>
                map (Nat.iter n (step_to src (sdf_distance src s))) (lift s))
           (l_samples L)
    /\ l_rotations L
       = map (map (fun v => NeuralRTF.rot
                              (forward (rtf_network (model self)) v)))
           (l_level_set_verts L)
    /\ l_translations L
       = map (map (fun v => NeuralRTF.transl
                              (forward (rtf_network (model self)) v)))
           (l_level_set_verts L)
    /\ l_moving_idx L
       = map (fun i => (i, 0%nat)) (seq 0 (length (handles_moving self)))
    /\ l_static_idx L
       = map (fun i => (i, 0%nat))
           (seq (length (handles_moving self))
                (length (handles_static self)))
    /\ g' = snd (point_dist_fn (delaunay_sample cfg)
                   (plane_coords_scale cfg) g2).
Proof.
  intros H cfg src n handles.
  unfold train_step_locals in H.
  fold cfg src in H; fold n in H.
  rewrite projected_handles, map_app in H; fold handles in H.
  destruct (sdf_sample_zero_level_set src
              (zero_samples cfg - Z.of_nat (length handles))%Z
              (near_surface_threshold cfg) (attempts_per_step cfg)
              (domain_bounds cfg) n g) as [[sampled | k] g1] eqn:Es;
    [|discriminate].
  destruct (sample_domain rng rand self (space_samples cfg) g1)
    as [space_sample g2] eqn:Ed.
  unfold get_patch_mesh in H.
  exists sampled, g1, space_sample, g2.
  intros plane lift.
  destruct (point_dist_fn (delaunay_sample cfg) (plane_coords_scale cfg) g2)
    as [plane0 g3] eqn:Ep.
  cbn [fst] in plane; subst plane.
  set (plane := plane0) in *.
  injection H as <- <-.
  cbn [snd l_handles l_handle_values l_samples l_sample_dist l_plane_coords
       l_triangles l_tangent_pts l_level_set_verts l_rotations
       l_translations l_moving_idx l_static_idx].
  set (samples := (handles ++ sampled) ++ space_sample).
  assert (Hm : length (map (Nat.iter n (step_to src 0))
                         (map fst (handles_moving self)))
               = length (handles_moving self))
    by (rewrite !length_map; reflexivity).
  assert (Hh : length handles
               = (length (handles_moving self)
                  + length (handles_static self))%nat)
    by (unfold handles; rewrite length_app, Hm, length_map; reflexivity).
  assert (Ht : zip_with (fun coords s => map (fun c => vadd c s) coords)
                 (map (fun T => map (mapply T) plane)
                    (map (sdf_tangent_plane src) samples)) samples
               = map lift samples).
  { rewrite map_map, zip_with_map_l; apply map_ext.
    intros s; unfold lift; rewrite map_map; reflexivity. }
  rewrite Ht.
  assert (Hl : for_range n
                 (fun verts =>
                    source_project_level_sets sdf_distance sdf_gradient
                      src verts (map (sdf_distance src) samples))
                 (map lift samples)
               = map (fun s =>
                        map (Nat.iter n (step_to src (sdf_distance src s)))
                            (lift s)) samples).
  { rewrite projected_patches by (rewrite !length_map; lia).
    exact (zip_with_map_map
             (fun patch level => map (Nat.iter n (step_to src level)) patch)
             lift (sdf_distance src) samples). }
  rewrite Hl.
  repeat split; try reflexivity.
  - exact Ed.
  - f_equal; unfold handles; rewrite <- Hm; apply skipn_length_app.
  - rewrite map_map; apply map_ext; intros patch; apply map_map.
  - rewrite map_map; apply map_ext; intros patch; apply map_map.
  - rewrite handle_idx_rows, firstn_map, Hh, firstn_seq_add; reflexivity.
  - rewrite handle_idx_rows, skipn_map, Hh, skipn_seq_add; reflexivity.
Qed.


(** C6.  In a step that reaches the loss, the batch is the projected
    handles, then the points the surface sampler returned, then the
    points drawn in the domain, and the template is the one
    [get_patch_mesh] returns after these draws.  The patch of every
    sample [s] of the batch (the surface samples among them) is that
    template lifted into the tangent frame at [s],
    [tangent_frame(s) @ c + s] for each template point [c], computed from
    [s] alone; its vertices are then moved by [num_projections] rounds of
    the projection whose target level is the distance value at [s]
    itself, not zero. *)
Theorem patches_lifted_and_reprojected :
  forall (self : trainer) (g g' : rng) (L : locals),
    locals_of self g = (Returned L, g') ->
    let src := source self in
    let cfg := config self in
    let n := num_projections cfg in
    let handles :=
      for_range n (source_project_nearest sdf_distance sdf_gradient src)
        (map fst (handles_moving self) ++ handles_static self) in
    exists (sampled : list vec3) (g1 : rng) (space_sample : list vec3)
           (g2 : rng),
      sdf_sample_zero_level_set src
        (zero_samples cfg - Z.of_nat (length handles))%Z
        (near_surface_threshold cfg) (attempts_per_step cfg)
        (domain_bounds cfg) n g = (Samples sampled, g1)
      /\ sample_domain rng rand self (space_samples cfg) g1
         = (space_sample, g2)
      /\ l_samples L = (handles ++ sampled) ++ space_sample
      /\ (l_plane_coords L, l_triangles L, g')
         = get_patch_mesh rng point_dist_fn triangulation_fn
             (delaunay_sample cfg) (plane_coords_scale cfg) g2
      /\ l_sample_dist L = map (sdf_distance src) (l_samples L)
      /\ length (l_tangent_pts L) = length (l_samples L)
      /\ length (l_level_set_verts L) = length (l_samples L)
      /\ forall (i : nat) (s : vec3),
           nth_error (l_samples L) i = Some s ->
           let lifted :=
             map (fun c => vadd (mapply (sdf_tangent_plane src s) c) s)
                 (l_plane_coords L) in
           nth_error (l_tangent_pts L) i = Some lifted
           /\ nth_error (l_level_set_verts L) i
              = Some (map (Nat.iter n (step_to src (sdf_distance src s)))
                          lifted).
Proof.
  intros self g g' L H src cfg n handles.
  destruct (locals_returned self g g' L H)
    as (sampled & g1 & space & g2 & Es & Ed & _ & _ & Hs & Hd & Hp & Htri
        & Ht & Hl & _ & _ & _ & _ & Hg).
  fold src cfg in Es, Ed, Hs, Hd, Hp, Htri, Ht, Hl, Hg.
  fold n in Es, Hs, Hl.
  assert (Hh : handles
               = map (Nat.iter n (step_to src 0))
                   (map fst (handles_moving self))
                 ++ map (Nat.iter n (step_to src 0)) (handles_static self)).
  { unfold handles; rewrite projected_handles, map_app; reflexivity. }
  exists sampled, g1, space, g2.
  rewrite Hh.
  split; [exact Es|].
  split; [exact Ed|].
  split; [exact Hs|].
  split.
  { unfold get_patch_mesh; rewrite Hp, Htri, Hg.
    destruct (point_dist_fn (delaunay_sample cfg) (plane_coords_scale cfg)
                g2); reflexivity. }
  split; [exact Hd|].
  split; [rewrite Ht; apply length_map|].
  split; [rewrite Hl; apply length_map|].
  intros i s Hi lifted; subst lifted.
  rewrite Ht, Hl, !nth_error_map, Hi, Hp; cbn [option_map].
  split; reflexivity.
Qed.


(** C10.  In a step that reaches the loss, row [i] of the batch is the
    projected [i]-th moving handle for [i] below the number [m] of moving
    handles, and row [m + i] is the projected [i]-th static handle;
    [moving_idx] lists the rows [0 .. m-1] and [static_idx] the rows
    [m .. h-1], each with vertex index 0; and every row they list is a row
    of the vertices, rotations and translations handed to the loss.  This
    holds for whatever the surface sampler returns. *)
Theorem handle_rows_lead_the_batch :
  forall (self : trainer) (g g' : rng) (L : locals),
    locals_of self g = (Returned L, g') ->
    let m := length (handles_moving self) in
    let k := length (handles_static self) in
    let project :=
      Nat.iter (num_projections (config self)) (step_to (source self) 0) in
    (forall (i : nat) (p : vec3 * vec3),
       nth_error (handles_moving self) i = Some p ->
       nth_error (l_samples L) i = Some (project (fst p)))
    /\ (forall (i : nat) (p : vec3),
          nth_error (handles_static self) i = Some p ->
          nth_error (l_samples L) (m + i) = Some (project p))
    /\ l_moving_idx L = map (fun i => (i, 0%nat)) (seq 0 m)
    /\ l_static_idx L = map (fun i => (i, 0%nat)) (seq m k)
    /\ (forall row col : nat,
          In (row, col) (l_moving_idx L ++ l_static_idx L) ->
          col = 0%nat
          /\ (row < m + k)%nat
          /\ (row < length (l_level_set_verts L))%nat
          /\ (row < length (l_rotations L))%nat
          /\ (row < length (l_translations L))%nat).
Proof.
  intros self g g' L H m k project.
  destruct (locals_returned self g g' L H)
    as (sampled & g1 & space & g2 & _ & _ & _ & _ & Hs & _ & _ & _ & _ & Hl
        & Hr & Ht & Hmi & Hsi & _).
  fold m in Hmi, Hsi; fold k in Hsi.
  assert (Hlen : length (map project (map fst (handles_moving self))) = m)
    by (rewrite !length_map; reflexivity).
  split; [|split; [|split; [|split]]].
  - intros i p Hp.
    assert (Hi : (i < m)%nat) by (apply nth_error_Some; congruence).
    rewrite Hs, <- !app_assoc.
    rewrite nth_error_app1 by (fold project; rewrite Hlen; exact Hi).
    rewrite !nth_error_map, Hp; reflexivity.
  - intros i p Hp.
    assert (Hi : (i < k)%nat) by (apply nth_error_Some; congruence).
    rewrite Hs, <- !app_assoc.
    rewrite nth_error_app2 by (fold project; rewrite Hlen; lia).
    fold project; rewrite Hlen.
    replace (m + i - m)%nat with i by lia.
    rewrite nth_error_app1 by (rewrite length_map; exact Hi).
    rewrite nth_error_map, Hp; reflexivity.
  - exact Hmi.
  - exact Hsi.
  - intros row col Hin.
    assert (Hrow : col = 0%nat /\ (row < m + k)%nat).
    { rewrite Hmi, Hsi, <- map_app, <- seq_app in Hin.
      apply in_map_iff in Hin; destruct Hin as (i & Hi & Hseq).
      injection Hi as <- <-; apply in_seq in Hseq; split; [reflexivity|lia]. }
    destruct Hrow as [Hc Hrow].
    assert (Hv : (m + k <= length (l_level_set_verts L))%nat).
    { rewrite Hl, length_map, Hs, !length_app, !length_map.
      fold m k; lia. }
    rewrite Hr, Ht, !length_map; repeat split; try assumption; lia.
Qed.

(** *** The frozen shape network *)

Variable autograd : trainer -> loss_dict -> string -> list R.
Variable lr : R.

Local Abbreviation run_of :=
  (run rng rand sdf_distance sdf_gradient sdf_tangent_plane
     sdf_sample_zero_level_set rtf_network point_dist_fn triangulation_fn
     autograd lr).

Lemma detach_model_detached (m : module_params) : detached (detach_model m).
Proof.
  unfold detached, detach_model; apply Forall_forall; intros np Hin.
  apply in_map_iff in Hin; destruct Hin as (q & <- & _); reflexivity.
Qed.

Lemma backward_detached (grads : string -> list R) (m : module_params) :
  detached m -> backward grads m = m.
Proof.
  unfold detached, backward; intros H.
  rewrite <- (map_id m) at 2; apply map_ext_in; intros np Hin.
  rewrite Forall_forall in H; rewrite (H np Hin); reflexivity.
Qed.

Lemma training_iteration_source (self : trainer) (g : rng) :
  detached (source self) ->
  source (fst (fst (training_iteration rng rand sdf_distance sdf_gradient
                      sdf_tangent_plane sdf_sample_zero_level_set
                      rtf_network point_dist_fn triangulation_fn
                      autograd lr self g)))
  = source self.
Proof.
  intros Hd; unfold training_iteration.
  destruct (train_step rng rand sdf_distance sdf_gradient sdf_tangent_plane
              sdf_sample_zero_level_set rtf_network point_dist_fn
              triangulation_fn self g) as [[d | e] g1]; cbn [fst source].
  - apply backward_detached; exact Hd.
  - reflexivity.
Qed.

Lemma run_source (steps : nat) :
  forall (self : trainer) (g : rng),
    detached (source self) ->
    source (fst (run_of steps self g)) = source self.
Proof.
  induction steps as [|steps IH]; intros self g Hd; [reflexivity|].
  cbn [run].
  pose proof (training_iteration_source self g Hd) as Hs.
  destruct (training_iteration rng rand sdf_distance sdf_gradient
              sdf_tangent_plane sdf_sample_zero_level_set rtf_network
              point_dist_fn triangulation_fn autograd lr self g)
    as [[self1 g1] [|]]; cbn [fst] in Hs |- *.
  - rewrite IH by (rewrite Hs; exact Hd); exact Hs.
  - exact Hs.
Qed.

Lemma load_state_dict_data (sd : state_dict) :
  forall (m loaded : module_params),
    load_state_dict sd m = Some loaded ->
    map fst loaded = map fst m
    /\ forall name p, In (name, p) loaded ->
         lookup_key name sd = Some (data p).
Proof.
  induction m as [|[name0 p0] m IH]; intros loaded H; cbn [load_state_dict] in H.
  - injection H as <-; split; [reflexivity|intros ? ? []].
  - destruct (lookup_key name0 sd) as [d|] eqn:Ek; [|discriminate].
    destruct (load_state_dict sd m) as [rest|]; [|discriminate].
    injection H as <-.
    destruct (IH rest eq_refl) as [Hn Hd].
    split; [cbn [map fst]; rewrite Hn; reflexivity|].
    intros name p [Heq | Hin].
    + injection Heq as <- <-; exact Ek.
    + apply Hd; exact Hin.
Qed.

(** C9.  After [setup_model] no parameter of the shape network tracks
    gradients, and each holds the values the checkpoint stores under its
    name; from then on the parameters of the shape network (values, flags
    and gradients) are the same after any number of training iterations:
    the step only reads them, the backward pass leaves no gradient on a
    detached parameter and the optimizer updates the deformation network
    alone. *)
Theorem frozen_source_never_mutated :
  forall (self0 self : trainer),
    setup_model self0 = Some self ->
    detached (source self)
    /\ map fst (source self) = map fst (shape_model (config self0))
    /\ (forall name p, In (name, p) (source self) ->
          lookup_key name (pretrained_shape (config self0))
          = Some (data p))
    /\ forall (steps : nat) (g : rng),
         source (fst (run_of steps self g)) = source self.
Proof.
  intros self0 self H; unfold setup_model in H.
  destruct (load_state_dict (pretrained_shape (config self0))
              (shape_model (config self0))) as [loaded|] eqn:El;
    [|discriminate].
  injection H as <-; cbn [source].
  destruct (load_state_dict_data _ _ _ El) as [Hn Hd].
  split; [apply detach_model_detached|].
  split; [|split].
  - unfold detach_model; rewrite map_map; cbn [fst]; exact Hn.
  - intros name p Hin; unfold detach_model in Hin.
    apply in_map_iff in Hin; destruct Hin as ([name1 p1] & Heq & Hin).
    cbn [fst snd] in Heq; injection Heq as <- <-; cbn [data].
    apply Hd; exact Hin.
  - intros steps g; apply run_source; cbn [source].
    apply detach_model_detached.
Qed.

End StepFacts.

(** *** The scene *)

Example scene_setup : setup_model Scene.fresh = Some Scene.ready.
Proof. reflexivity. Qed.

Lemma patches_lifted_and_reprojected_witness :
  exists (L : locals) (g' : nat),
    train_step_locals nat Scene.rand Scene.sdf_distance Scene.sdf_gradient
      Scene.sdf_tangent_plane Scene.sample_zero_level_set
      Scene.rtf_network Scene.point_dist_fn Scene.triangulation_fn
      Scene.ready 0%nat = (Returned L, g')
    /\ (exists (sampled : list vec3) (space_sample : list vec3),
          l_samples L
          = (for_range 1
               (source_project_nearest Scene.sdf_distance
                  Scene.sdf_gradient (source Scene.ready))
               [mkV 0 0 1; mkV 1 0 0] ++ sampled) ++ space_sample)
    /\ length (l_level_set_verts L) = length (l_samples L)
    /\ length (l_samples L) = 4%nat.
Proof.
  eexists; eexists; split; [reflexivity|].
  destruct (patches_lifted_and_reprojected nat Scene.rand
              Scene.sdf_distance Scene.sdf_gradient
              Scene.sdf_tangent_plane Scene.sample_zero_level_set
              Scene.rtf_network Scene.point_dist_fn
              Scene.triangulation_fn Scene.ready 0%nat _ _ eq_refl)
    as (sampled & g1 & space & g2 & _ & _ & Hs & _ & _ & _ & Hl & _).
  split; [exists sampled, space; exact Hs|].
  split; [exact Hl | reflexivity].
Defined.



Lemma handle_rows_lead_the_batch_witness :
  exists (L : locals) (g' : nat),
    train_step_locals nat Scene.rand Scene.sdf_distance Scene.sdf_gradient
      Scene.sdf_tangent_plane Scene.sample_zero_level_set
      Scene.rtf_network Scene.point_dist_fn Scene.triangulation_fn
      Scene.ready 0%nat = (Returned L, g')
    /\ l_moving_idx L = [(0%nat, 0%nat)]
    /\ l_static_idx L = [(1%nat, 0%nat)].
Proof.
  eexists; eexists; split; [reflexivity|].
  split;
    eapply (handle_rows_lead_the_batch nat Scene.rand
              Scene.sdf_distance Scene.sdf_gradient
              Scene.sdf_tangent_plane Scene.sample_zero_level_set
              Scene.rtf_network Scene.point_dist_fn
              Scene.triangulation_fn Scene.ready 0%nat);
    reflexivity.
Defined.

Lemma frozen_source_never_mutated_witness :
  setup_model Scene.fresh = Some Scene.ready
  /\ source
       (fst (run nat Scene.rand Scene.sdf_distance Scene.sdf_gradient
               Scene.sdf_tangent_plane Scene.sample_zero_level_set
               Scene.rtf_network Scene.point_dist_fn
               Scene.triangulation_fn Scene.autograd (1 / 10)
               2 Scene.ready 0%nat))
     = source Scene.ready.
Proof.
  split; [reflexivity|].
  apply (frozen_source_never_mutated nat Scene.rand Scene.sdf_distance
           Scene.sdf_gradient Scene.sdf_tangent_plane
           Scene.sample_zero_level_set Scene.rtf_network
           Scene.point_dist_fn Scene.triangulation_fn Scene.autograd
           (1 / 10) Scene.fresh Scene.ready).
  reflexivity.
Defined.

(** The backward pass does leave a gradient on a parameter that still
    tracks gradients: detaching is what protects the shape network. *)
Example backward_marks_tracked_parameter :
  backward (fun _ => [1; 1]) [("w"%string, mkParameter [3; 4] true None)]
  = [("w"%string, mkParameter [3; 4] true (Some [1; 1]))].
Proof. reflexivity. Qed.

Lemma norm_along_z : norm (mkV 0 0 1) = 1.
Proof.
  unfold norm, sqnorm, vdot; cbn [vx vy vz].
  replace (0 * 0 + 0 * 0 + 1 * 1) with 1 by ring.
  apply sqrt_1.
Qed.

(** In the scene one projection round drops the moving handle onto the
    plane. *)
Example scene_moving_handle_projected :
  level_set_update (Scene.sdf_distance []) (Scene.sdf_gradient []) 0
    (mkV 0 0 1) = vzero.
Proof.
  unfold level_set_update, Scene.sdf_distance, Scene.sdf_gradient,
    F_normalize, normalize_denom.
  rewrite norm_along_z.
  rewrite Rmax_left by (pose proof normalize_eps_pos; unfold normalize_eps in *;
    apply Rlt_le; apply Rlt_le_trans with (/ 1);
    [apply Rinv_lt_contravar; [|]; try lra; try (apply pow_lt; lra);
     try (apply Rlt_pow_R1; [lra | lia]) | rewrite Rinv_1; lra]).
  cbv [vsub vscale vzero vx vy vz]; f_equal; field.
Qed.

(* ================================================================== *)
(** * Further properties of the sources *)
(* ================================================================== *)

(** ** Projection: points on the level set, rounds, exact fields *)

Lemma for_range_fixed {A : Type} (n : nat) (body : A -> A) (x : A) :
  body x = x -> for_range n body x = x.
Proof.
  intros H; induction n as [|n IH]; [reflexivity|].
  cbn [for_range]; rewrite H; exact IH.
Qed.

Lemma for_range_add {A : Type} (a b : nat) (body : A -> A) (x : A) :
  for_range b body (for_range a body x) = for_range (a + b) body x.
Proof.
  revert x; induction a as [|a IH]; intros x; [reflexivity|].
  cbn [for_range Nat.add]; apply IH.
Qed.

Lemma level_set_update_on_level sdf gradient level q :
  sdf q = level -> level_set_update sdf gradient level q = q.
Proof.
  intros H; unfold level_set_update.
  rewrite H, Rminus_diag, vscale_zero_l; apply vsub_zero_r.
Qed.

Lemma project_nearest_on_level sdf gradient query n_its level :
  (forall q, In q query -> sdf q = level) ->
  project_nearest sdf gradient query n_its level = query.
Proof.
  intros H; unfold project_nearest; apply for_range_fixed.
  rewrite project_round_pointwise.
  rewrite <- (map_id query) at 2; apply map_ext_in.
  intros q Hq; apply level_set_update_on_level, H, Hq.
Qed.

(** X1.  A batch whose points all lie on the target level set comes back
    from [project_nearest] unchanged, for any number of rounds and any
    gradient. *)
Theorem project_nearest_fixes_level_set :
  forall (sdf : vec3 -> R) (gradient : vec3 -> vec3)
         (query : list vec3) (n_its : nat) (level : R),
    (forall q, In q query -> sdf q = level) ->
    project_nearest sdf gradient query n_its level = query.
Proof.
  intros sdf gradient query n_its level H.
  apply project_nearest_on_level; exact H.
Qed.

Lemma project_nearest_fixes_level_set_witness :
  project_nearest (fun p => vz p) (fun _ => mkV 0 0 1)
    [mkV 1 2 0; mkV (-3) 0 0] 5 0
  = [mkV 1 2 0; mkV (-3) 0 0].
Proof.
  apply (project_nearest_fixes_level_set (fun p => vz p)
           (fun _ => mkV 0 0 1) [mkV 1 2 0; mkV (-3) 0 0] 5 0).
  intros q [<- | [<- | []]]; reflexivity.
Defined.

Lemma F_normalize_unit (v : vec3) : norm v = 1 -> F_normalize v = v.
Proof.
  intros H; unfold F_normalize, normalize_denom; rewrite H.
  assert (Heps : normalize_eps <= 1).
  { unfold normalize_eps.
    apply Rle_trans with (/ 1); [|rewrite Rinv_1; lra].
    apply Rinv_le_contravar; [lra|].
    apply pow_R1_Rle; lra. }
  rewrite Rmax_left by exact Heps.
  rewrite Rinv_1; vec_ring.
Qed.

(** X3.  On a field with a constant unit gradient [nrm] along which the
    distance falls at unit rate (a plane), one round of the projection
    puts every point exactly on the target level, and the points stay
    there in all later rounds. *)
Theorem project_nearest_exact_on_plane :
  forall (sdf : vec3 -> R) (nrm : vec3) (query : list vec3)
         (n_its : nat) (level : R),
    norm nrm = 1 ->
    (forall p k, sdf (vsub p (vscale k nrm)) = sdf p - k) ->
    forall q,
      In q (project_nearest sdf (fun _ => nrm) query (S n_its) level) ->
      sdf q = level.
Proof.
  intros sdf nrm query n_its level Hn Hs q Hq.
  assert (H1 : forall p, In p (project_round sdf (fun _ => nrm) level query)
                         -> sdf p = level).
  { intros p Hp; rewrite project_round_pointwise in Hp.
    apply in_map_iff in Hp; destruct Hp as (p0 & <- & _).
    unfold level_set_update; rewrite (F_normalize_unit nrm Hn), Hs; ring. }
  unfold project_nearest in Hq; cbn [for_range] in Hq.
  change (for_range n_its (project_round sdf (fun _ => nrm) level)
            (project_round sdf (fun _ => nrm) level query))
    with (project_nearest sdf (fun _ => nrm)
            (project_round sdf (fun _ => nrm) level query) n_its level)
    in Hq.
  rewrite (project_nearest_on_level sdf (fun _ => nrm) _ n_its
             level H1) in Hq.
  apply H1; exact Hq.
Qed.

Lemma project_nearest_exact_on_plane_witness :
  Forall (fun q => vz q = 0)
    (project_nearest (fun p => vz p) (fun _ => mkV 0 0 1)
       [mkV 1 2 3; mkV 0 0 (-4)] 3 0).
Proof.
  apply Forall_forall.
  apply (project_nearest_exact_on_plane (fun p => vz p) (mkV 0 0 1)
           [mkV 1 2 3; mkV 0 0 (-4)] 2 0).
  - apply norm_along_z.
  - intros p k; cbn [vsub vscale vz]; ring.
Defined.

Import SphereSDF.

Lemma sqnorm_vscale (k : R) (v : vec3) :
  sqnorm (vscale k v) = Rsqr k * sqnorm v.
Proof. unfold Rsqr; vec_ring. Qed.

Lemma norm_vscale (k : R) (v : vec3) :
  norm (vscale k v) = Rabs k * norm v.
Proof.
  unfold norm; rewrite sqnorm_vscale.
  rewrite sqrt_mult by (try apply Rle_0_sqr; apply sqnorm_nonneg).
  rewrite sqrt_Rsqr_abs; reflexivity.
Qed.

Lemma sphere_gradient_unit (x : vec3) :
  norm x <> 0 -> norm (sphere_gradient x) = 1.
Proof.
  intros H; unfold sphere_gradient; rewrite norm_vscale.
  pose proof (norm_nonneg x) as Hn.
  rewrite Rabs_right.
  - field; exact H.
  - apply Rle_ge, Rlt_le, Rinv_0_lt_compat; lra.
Qed.

(** X4.  On the distance field of a sphere, [x.norm() - r] with its
    derivative [x / ||x||], one round of the projection moves any point
    other than the centre exactly onto the level set of a target level
    no lower than [-r]. *)
Theorem projection_exact_on_sphere :
  forall (r level : R) (q : vec3),
    norm q <> 0 ->
    0 <= r + level ->
    sphere r (level_set_update (sphere r) sphere_gradient level q) = level.
Proof.
  intros r level q Hq Hl.
  unfold level_set_update.
  rewrite (F_normalize_unit _ (sphere_gradient_unit q Hq)).
  unfold sphere at 2, sphere_gradient.
  replace (vsub q (vscale (norm q - r - level) (vscale (/ norm q) q)))
    with (vscale ((r + level) / norm q) q).
  - unfold sphere; rewrite norm_vscale.
    pose proof (norm_nonneg q) as Hn.
    rewrite Rabs_right.
    + field; exact Hq.
    + apply Rle_ge; unfold Rdiv; apply Rmult_le_pos; [exact Hl|].
      apply Rlt_le, Rinv_0_lt_compat; lra.
  - destruct q as [x y z]; cbv [vsub vscale vx vy vz].
    set (n := norm {| vx := x; vy := y; vz := z |}) in *.
    f_equal; field; exact Hq.
Qed.

Lemma norm_along_x_two : norm (mkV 2 0 0) = 2.
Proof. apply norm_along_x; lra. Qed.

Lemma projection_exact_on_sphere_witness :
  default_sdf_callable
    (level_set_update (sphere (1 / 2)) sphere_gradient 0 (mkV 2 0 0))
  = 0.
Proof.
  apply (projection_exact_on_sphere (1 / 2) 0 (mkV 2 0 0)).
  - rewrite norm_along_x_two; lra.
  - lra.
Defined.

(** ** Inverting the deformation *)

Import FixedPointInvert.

Lemma mapply_mmul (A B : mat3) (v : vec3) :
  mapply (mmul A B) v = mapply A (mapply B v).
Proof. vec_ring. Qed.

Lemma mmul_mid_l (A : mat3) : mmul mid A = A.
Proof. vec_ring. Qed.

Lemma transpose_left_rot_x (c s : R) :
  c * c + s * s = 1 -> mmul (mtranspose (rot_x c s)) (rot_x c s) = mid.
Proof.
  intros H; cbv [rot_x mmul mtranspose mid
    m00 m01 m02 m10 m11 m12 m20 m21 m22]; f_equal; try ring;
  ring_simplify; try (rewrite <- H; ring).
Qed.

Lemma transpose_left_rot_y (c s : R) :
  c * c + s * s = 1 -> mmul (mtranspose (rot_y c s)) (rot_y c s) = mid.
Proof.
  intros H; cbv [rot_y mmul mtranspose mid
    m00 m01 m02 m10 m11 m12 m20 m21 m22]; f_equal; try ring;
  ring_simplify; try (rewrite <- H; ring).
Qed.

Lemma transpose_left_rot_z (c s : R) :
  c * c + s * s = 1 -> mmul (mtranspose (rot_z c s)) (rot_z c s) = mid.
Proof.
  intros H; cbv [rot_z mmul mtranspose mid
    m00 m01 m02 m10 m11 m12 m20 m21 m22]; f_equal; try ring;
  ring_simplify; try (rewrite <- H; ring).
Qed.

Lemma transpose_left_mmul (A B : mat3) :
  mmul (mtranspose A) A = mid -> mmul (mtranspose B) B = mid ->
  mmul (mtranspose (mmul A B)) (mmul A B) = mid.
Proof.
  intros HA HB.
  rewrite mtranspose_mmul, mmul_assoc.
  rewrite <- (mmul_assoc (mtranspose A) A B), HA, mmul_mid_l.
  exact HB.
Qed.

Lemma euler_transpose_left (euler : vec3) :
  mmul (mtranspose (euler_to_rotation euler)) (euler_to_rotation euler)
  = mid.
Proof.
  unfold euler_to_rotation.
  repeat apply transpose_left_mmul.
  - apply transpose_left_rot_z, cos_sin_unit.
  - apply transpose_left_rot_y, cos_sin_unit.
  - apply transpose_left_rot_x, cos_sin_unit.
Qed.

Lemma euler_transpose_right (euler : vec3) :
  mmul (euler_to_rotation euler) (mtranspose (euler_to_rotation euler))
  = mid.
Proof. apply proper_rotation_euler. Qed.

Lemma invert_round_fixed_iff (g : vec3 -> list R) (y x : vec3) :
  invert_round g y x = x <-> deform g x = y.
Proof.
  unfold invert_round, deform, forward; cbn [rot transl].
  set (Rm := euler_to_rotation (vec_of_list (firstn 3 (g x)))).
  set (t := vec_of_list (skipn 3 (g x))).
  split; intros H.
  - rewrite <- H, <- mapply_mmul.
    unfold Rm; rewrite euler_transpose_right, mapply_mid; vec_ring.
  - rewrite <- H.
    replace (vsub (vadd (mapply Rm x) t) t) with (mapply Rm x) by vec_ring.
    rewrite <- mapply_mmul.
    unfold Rm; rewrite euler_transpose_left; apply mapply_mid.
Qed.

(** X5.  A point that a round of [fixed_point_invert] leaves in place is a
    preimage of [y] under [deform], and every preimage of [y] is left in
    place: the iteration can only settle on true inverses. *)
Theorem invert_fixed_points_are_preimages :
  forall (g : vec3 -> list R) (y x : vec3),
    invert_round g y x = x <-> deform g x = y.
Proof. exact invert_round_fixed_iff. Qed.

(** X6.  For a network whose output does not depend on the point, any
    positive number of rounds inverts the deformation exactly, in both
    directions, and so does [inverse] with its 15 rounds; with no round
    the point is returned as given. *)
Theorem invert_exact_for_constant_field :
  forall (g : vec3 -> list R),
    (forall a b, g a = g b) ->
    forall (y : vec3) (iters : nat),
      deform g (fixed_point_invert g y (S iters)) = y
      /\ fixed_point_invert g (deform g y) (S iters) = y
      /\ inverse g (deform g y) = y
      /\ fixed_point_invert g y 0 = y.
Proof.
  intros g Hg y iters.
  assert (Hc : forall z w a, invert_round g w a = invert_round g w z).
  { intros z w a; unfold invert_round; rewrite (Hg a z); reflexivity. }
  assert (Hinv : forall n, fixed_point_invert g (deform g y) (S n) = y).
  { intros n; unfold fixed_point_invert; rewrite for_range_succ.
    rewrite (Hc y); apply invert_round_fixed_iff; reflexivity. }
  split; [|split; [|split]].
  - apply invert_round_fixed_iff.
    unfold fixed_point_invert; rewrite for_range_succ.
    apply Hc.
  - apply Hinv.
  - apply Hinv.
  - reflexivity.
Qed.

Lemma invert_exact_for_constant_field_witness :
  deform (fun _ => [0; 0; PI; 1; 2; 3])
    (fixed_point_invert (fun _ => [0; 0; PI; 1; 2; 3]) (mkV 4 5 6) 3)
  = mkV 4 5 6.
Proof.
  apply (invert_exact_for_constant_field (fun _ => [0; 0; PI; 1; 2; 3])
           (fun _ _ => eq_refl) (mkV 4 5 6) 2).
Defined.

(** ** The cached volume and the mesh coordinates *)

Import SDFVolume.

Lemma chunks_concat {A : Type} (chunk : nat) :
  (0 < chunk)%nat ->
  forall (fuel : nat) (l : list A),
    (length l <= fuel)%nat -> concat (chunks fuel chunk l) = l.
Proof.
  intros Hc; induction fuel as [|fuel IH]; intros l Hl.
  - destruct l; [reflexivity | cbn [length] in Hl; lia].
  - destruct l as [|a l]; [reflexivity|].
    cbn [chunks concat]; rewrite IH.
    + apply firstn_skipn.
    + destruct chunk as [|chunk]; [lia|].
      cbn [skipn]; pose proof (length_skipn chunk l) as Hs.
      cbn [length] in Hl; lia.
Qed.

Lemma torch_split_concat {A : Type} (l : list A) (chunk : nat)
  (samples : list (list A)) :
  torch_split l chunk = Some samples -> concat samples = l.
Proof.
  unfold torch_split; destruct l as [|a l].
  - intros H; injection H as <-; reflexivity.
  - destruct chunk as [|chunk]; [discriminate|].
    intros H; injection H as <-.
    exact (chunks_concat (S chunk) (Nat.lt_0_succ chunk)
             (length (a :: l)) (a :: l) (Nat.le_refl _)).
Qed.

Lemma length_flat_map_const {A B : Type} (f : A -> list B) (m : nat)
  (l : list A) :
  (forall x, length (f x) = m) ->
  length (flat_map f l) = (length l * m)%nat.
Proof.
  intros H; induction l as [|a l IH]; [reflexivity|].
  cbn [flat_map length]; rewrite length_app, H, IH; lia.
Qed.

Lemma nth_error_flat_map_const {A B : Type} (f : A -> list B) (m : nat)
  (l : list A) (i j : nat) (a : A) :
  (forall x, length (f x) = m) ->
  (j < m)%nat ->
  nth_error l i = Some a ->
  nth_error (flat_map f l) (i * m + j) = nth_error (f a) j.
Proof.
  intros H Hj; revert i; induction l as [|b l IH]; intros i Hi.
  - destruct i; discriminate.
  - destruct i as [|i]; cbn [flat_map nth_error] in *.
    + injection Hi as ->.
      rewrite nth_error_app1 by (rewrite H; exact Hj); reflexivity.
    + rewrite nth_error_app2 by (rewrite H; lia).
      rewrite H.
      replace (S i * m + j - m)%nat with (i * m + j)%nat by lia.
      apply IH; exact Hi.
Qed.

Lemma length_linspace (lo hi : R) (steps : nat) :
  length (linspace lo hi steps) = steps.
Proof. unfold linspace; rewrite length_map; apply length_seq. Qed.

Lemma nth_error_linspace (lo hi : R) (steps i : nat) :
  (i < steps)%nat ->
  nth_error (linspace lo hi steps) i
  = Some (grid_position lo hi steps (INR i)).
Proof.
  intros H; unfold linspace.
  rewrite nth_error_map, nth_error_seq.
  apply Nat.ltb_lt in H; rewrite H; reflexivity.
Qed.

Lemma length_make_volume (lo hi : R) (res : nat) :
  length (make_volume lo hi res) = (res * res * res)%nat.
Proof.
  unfold make_volume.
  rewrite (length_flat_map_const _ (res * res)).
  - rewrite length_linspace; lia.
  - intros x; rewrite (length_flat_map_const _ res).
    + rewrite length_linspace; reflexivity.
    + intros y; rewrite length_map; apply length_linspace.
Qed.

Lemma nth_error_make_volume (lo hi : R) (res i j k : nat) :
  (i < res)%nat -> (j < res)%nat -> (k < res)%nat ->
  nth_error (make_volume lo hi res) ((i * res + j) * res + k)
  = Some (mkV (grid_position lo hi res (INR i))
              (grid_position lo hi res (INR j))
              (grid_position lo hi res (INR k))).
Proof.
  intros Hi Hj Hk; unfold make_volume.
  set (steps := linspace lo hi res).
  assert (Hin : forall x y, length (map (fun z => mkV x y z) steps) = res)
    by (intros; rewrite length_map; apply length_linspace).
  assert (Hmid : forall x,
            length (flat_map (fun y => map (fun z => mkV x y z) steps)
                      steps) = (res * res)%nat).
  { intros x; rewrite (length_flat_map_const _ res) by apply Hin.
    unfold steps; rewrite length_linspace; reflexivity. }
  replace ((i * res + j) * res + k)%nat
    with (i * (res * res) + (j * res + k))%nat by lia.
  rewrite (nth_error_flat_map_const _ (res * res) steps i (j * res + k)
             (grid_position lo hi res (INR i)) Hmid);
    [|nia|apply nth_error_linspace; exact Hi].
  rewrite (nth_error_flat_map_const _ res steps j k
             (grid_position lo hi res (INR j)) (Hin _) Hk);
    [|apply nth_error_linspace; exact Hj].
  rewrite nth_error_map.
  unfold steps; rewrite (nth_error_linspace lo hi res k Hk); reflexivity.
Qed.

(** X7.  [make_volume] lists [resolution^3] points, the point of grid
    index [(i, j, k)] in row [(i * resolution + j) * resolution + k]; with
    two or more steps the grid starts at [min_coord] and ends at
    [max_coord]. *)
Theorem make_volume_rows :
  forall (lo hi : R) (res : nat),
    length (make_volume lo hi res) = (res * res * res)%nat
    /\ (forall i j k : nat,
          (i < res)%nat -> (j < res)%nat -> (k < res)%nat ->
          nth_error (make_volume lo hi res) ((i * res + j) * res + k)
          = Some (mkV (grid_position lo hi res (INR i))
                      (grid_position lo hi res (INR j))
                      (grid_position lo hi res (INR k))))
    /\ grid_position lo hi res (INR 0) = lo
    /\ ((2 <= res)%nat -> grid_position lo hi res (INR (res - 1)) = hi).
Proof.
  intros lo hi res.
  split; [apply length_make_volume|].
  split; [intros; apply nth_error_make_volume; assumption|].
  split.
  - unfold grid_position; cbn [INR]; ring.
  - intros H; unfold grid_position; field.
    apply not_0_INR; lia.
Qed.

Lemma make_volume_rows_witness :
  grid_position (-1) 1 512 (INR (512 - 1)) = 1.
Proof.
  apply (make_volume_rows (-1) 1 512); lia.
Defined.

(** X8.  Whatever positive chunk size the evaluation is split into, the
    cached volume holds at [[i, j, k]] the distance at the grid point of
    index [(i, j, k)]; a chunk size of zero raises. *)
Theorem evaluate_model_chunk_independent :
  forall (sdf : vec3 -> R) (lo hi : R) (res chunk : nat),
    ((0 < chunk)%nat ->
       exists f_volume,
         evaluate_model sdf res chunk (make_volume lo hi res)
         = Some f_volume
         /\ f_volume = map sdf (make_volume lo hi res)
         /\ forall i j k : nat,
              (i < res)%nat -> (j < res)%nat -> (k < res)%nat ->
              volume_at res f_volume i j k
              = Some (sdf (mkV (grid_position lo hi res (INR i))
                               (grid_position lo hi res (INR j))
                               (grid_position lo hi res (INR k)))))
    /\ ((0 < res)%nat ->
          evaluate_model sdf res 0 (make_volume lo hi res) = None).
Proof.
  intros sdf lo hi res chunk; split.
  - intros Hc.
    exists (map sdf (make_volume lo hi res)).
    split; [|split; [reflexivity|]].
    + unfold evaluate_model.
      destruct (torch_split (make_volume lo hi res) chunk)
        as [samples|] eqn:Es.
      * rewrite <- concat_map, (torch_split_concat _ _ _ Es).
        rewrite length_map, length_make_volume, Nat.eqb_refl; reflexivity.
      * unfold torch_split in Es.
        destruct (make_volume lo hi res); [discriminate|].
        destruct chunk; [lia | discriminate].
    + intros i j k Hi Hj Hk; unfold volume_at.
      rewrite nth_error_map, (nth_error_make_volume lo hi res i j k Hi Hj Hk).
      reflexivity.
  - intros Hr; unfold evaluate_model, torch_split.
    pose proof (length_make_volume lo hi res) as Hl.
    destruct (make_volume lo hi res); [|reflexivity].
    cbn [length] in Hl; nia.
Qed.

Lemma evaluate_model_chunk_independent_witness :
  exists f_volume,
    evaluate_model (fun p => vz p) 2 3 (make_volume (-1) 1 2)
    = Some f_volume
    /\ f_volume = map (fun p => vz p) (make_volume (-1) 1 2).
Proof.
  destruct (proj1 (evaluate_model_chunk_independent (fun p => vz p)
                     (-1) 1 2 3) ltac:(lia)) as (f_volume & H1 & H2 & _).
  exists f_volume; split; assumption.
Defined.

Lemma half_of_odd (k : nat) : ((2 * k + 1) / 2 = k)%nat.
Proof. symmetry; apply (Nat.div_unique _ 2 k 1); lia. Qed.

Lemma half_of_even (k : nat) : ((2 * k) / 2 = k)%nat.
Proof. symmetry; apply (Nat.div_unique _ 2 k 0); lia. Qed.

(** X9.  On the default domain from -1 to 1, the rescaling of
    [extract_mesh] puts a vertex of grid index [v] where [make_volume]
    sampled that index exactly when the resolution is odd.  For an even
    resolution [2k] (the default 512 among them) the vertex lands below
    the sampled position by [v / (k (2k - 1))], so only index 0 is
    placed right. *)
Theorem extract_mesh_rescale_vs_grid :
  forall (k : nat) (v : R),
    (1 <= k)%nat ->
    rescale_vertex (2 * k + 1) v = grid_position (-1) 1 (2 * k + 1) v
    /\ grid_position (-1) 1 (2 * k) v - rescale_vertex (2 * k) v
       = v / (INR k * INR (2 * k - 1))
    /\ (v <> 0 ->
        rescale_vertex (2 * k) v <> grid_position (-1) 1 (2 * k) v).
Proof.
  intros k v Hk.
  assert (HkR : 1 <= INR k) by (change 1 with (INR 1); apply le_INR; exact Hk).
  assert (H2k : INR (2 * k - 1) = 2 * INR k - 1).
  { rewrite minus_INR by lia; rewrite mult_INR; cbn [INR]; ring. }
  assert (Hgap : grid_position (-1) 1 (2 * k) v - rescale_vertex (2 * k) v
                 = v / (INR k * INR (2 * k - 1))).
  { unfold rescale_vertex, grid_position.
    rewrite half_of_even, H2k; field; lra. }
  split; [|split].
  - unfold rescale_vertex, grid_position.
    rewrite half_of_odd.
    replace (2 * k + 1 - 1)%nat with (2 * k)%nat by lia.
    rewrite mult_INR; cbn [INR]; field; lra.
  - exact Hgap.
  - intros Hv Heq; rewrite Heq, Rminus_diag in Hgap.
    assert (Hpos : 0 < INR k * INR (2 * k - 1)) by (rewrite H2k; nra).
    symmetry in Hgap; unfold Rdiv in Hgap.
    apply Rmult_integral in Hgap; destruct Hgap as [Hz | Hz]; [lra|].
    pose proof (Rinv_0_lt_compat _ Hpos); lra.
Qed.

Lemma extract_mesh_rescale_vs_grid_witness :
  grid_position (-1) 1 (2 * 256) 511 - rescale_vertex (2 * 256) 511
  = 511 / (INR 256 * INR (2 * 256 - 1)).
Proof.
  apply (extract_mesh_rescale_vs_grid 256 511); lia.
Defined.

(** ** More on the training step *)



(** X11.  When the handles are at most [zero_samples], the surface
    sampler returns as many points as it is asked for and the generator
    as many rows as it is asked for, a step that reaches the loss builds
    exactly [zero_samples + space_samples] patches, with as many rows of
    rotations and of translations. *)
Theorem batch_has_configured_size :
  forall (rng : Type) (rand : nat -> rng -> list vec3 * rng)
         (sdf_distance : module_params -> vec3 -> R)
         (sdf_gradient : module_params -> vec3 -> vec3)
         (sdf_tangent_plane : module_params -> vec3 -> mat3)
         (sampler : module_params -> Z -> R -> nat -> R * R -> nat -> rng ->
                    ZeroLevelSetSampler.sample_result * rng)
         (rtf_network : module_params -> vec3 -> list R)
         (point_dist_fn : nat -> R -> rng -> list vec3 * rng)
         (triangulation_fn : list (R * R) -> list (nat * nat * nat))
         (self : trainer) (g g' : rng) (L : locals),
    train_step_locals rng rand sdf_distance sdf_gradient sdf_tangent_plane
      sampler rtf_network point_dist_fn triangulation_fn self g
    = (Returned L, g') ->
    (Z.of_nat (length (handles_moving self) + length (handles_static self))
     <= zero_samples (config self))%Z ->
    (forall src n th a b np g0 points g1,
       (0 <= n)%Z ->
       sampler src n th a b np g0 = (ZeroLevelSetSampler.Samples points, g1) ->
       Z.of_nat (length points) = n) ->
    (forall n g0, length (fst (rand n g0)) = n) ->
    let total :=
      (zero_samples (config self)
       + Z.of_nat (space_samples (config self)))%Z in
    Z.of_nat (length (l_samples L)) = total
    /\ Z.of_nat (length (l_level_set_verts L)) = total
    /\ Z.of_nat (length (l_rotations L)) = total
    /\ Z.of_nat (length (l_translations L)) = total.
Proof.
  intros rng rand sdf_distance sdf_gradient sdf_tangent_plane sampler
    rtf_network point_dist_fn triangulation_fn self g g' L H Hh Hsamp Hrand
    total.
  destruct (locals_returned rng rand sdf_distance sdf_gradient
              sdf_tangent_plane sampler rtf_network point_dist_fn
              triangulation_fn self g g' L H)
    as (sampled & g1 & space & g2 & Es & Ed & _ & _ & Hs & _ & _ & _ & _ & Hl
        & Hr & Ht & _).
  apply Hsamp in Es; [|rewrite !length_app, !length_map; lia].
  assert (Hsp : length space = space_samples (config self)).
  { unfold sample_domain in Ed.
    pose proof (Hrand (space_samples (config self)) g1) as Hn.
    destruct (rand (space_samples (config self)) g1) as [u gu].
    injection Ed as <- _; rewrite length_map; exact Hn. }
  assert (Hn : Z.of_nat (length (l_samples L)) = total).
  { rewrite Hs, !length_app, !length_map, Hsp.
    rewrite !length_app, !length_map in Es.
    unfold total; lia. }
  rewrite Hr, Ht, !length_map, Hl, length_map.
  repeat split; exact Hn.
Qed.

Lemma batch_has_configured_size_witness :
  exists (L : locals) (g' : nat),
    train_step_locals nat Scene.rand Scene.sdf_distance Scene.sdf_gradient
      Scene.sdf_tangent_plane Scene.sample_zero_level_set
      Scene.rtf_network Scene.point_dist_fn Scene.triangulation_fn
      Scene.ready 0%nat = (Returned L, g')
    /\ Z.of_nat (length (l_rotations L)) = 4%Z.
Proof.
  eexists; eexists; split; [reflexivity|].
  eapply (batch_has_configured_size nat Scene.rand Scene.sdf_distance
            Scene.sdf_gradient Scene.sdf_tangent_plane
            Scene.sample_zero_level_set Scene.rtf_network
            Scene.point_dist_fn Scene.triangulation_fn Scene.ready 0%nat).
  - reflexivity.
  - cbn; lia.
  - intros src n th a b np g0 points g1 Hn E.
    unfold Scene.sample_zero_level_set in E.
    injection E as <- _.
    rewrite repeat_length; apply Z2Nat.id; exact Hn.
  - intros n g0; apply repeat_length.
Defined.

(** X12.  In a step that reaches the loss, [handle_values] has one target
    per handle index; the target of a moving handle is the transform
    columns of its row of [handles_moving], taken as they were loaded,
    and the target of a static handle is the row of the batch that holds
    its own projected position. *)
Theorem handle_values_targets :
  forall (rng : Type) (rand : nat -> rng -> list vec3 * rng)
         (sdf_distance : module_params -> vec3 -> R)
         (sdf_gradient : module_params -> vec3 -> vec3)
         (sdf_tangent_plane : module_params -> vec3 -> mat3)
         (sampler : module_params -> Z -> R -> nat -> R * R -> nat -> rng ->
                    ZeroLevelSetSampler.sample_result * rng)
         (rtf_network : module_params -> vec3 -> list R)
         (point_dist_fn : nat -> R -> rng -> list vec3 * rng)
         (triangulation_fn : list (R * R) -> list (nat * nat * nat))
         (self : trainer) (g g' : rng) (L : locals),
    train_step_locals rng rand sdf_distance sdf_gradient sdf_tangent_plane
      sampler rtf_network point_dist_fn triangulation_fn self g
    = (Returned L, g') ->
    let m := length (handles_moving self) in
    length (l_handle_values L)
    = length (l_moving_idx L ++ l_static_idx L)
    /\ (forall (i : nat) (p : vec3 * vec3),
          nth_error (handles_moving self) i = Some p ->
          nth_error (l_handle_values L) i = Some (snd p))
    /\ (forall i : nat,
          (i < length (handles_static self))%nat ->
          nth_error (l_handle_values L) (m + i)
          = nth_error (l_samples L) (m + i)).
Proof.
  intros rng rand sdf_distance sdf_gradient sdf_tangent_plane sampler
    rtf_network point_dist_fn triangulation_fn self g g' L H m.
  destruct (locals_returned rng rand sdf_distance sdf_gradient
              sdf_tangent_plane sampler rtf_network point_dist_fn
              triangulation_fn self g g' L H)
    as (sampled & g1 & space & g2 & _ & _ & _ & Hv & Hs & _ & _ & _ & _ & _
        & _ & _ & Hmi & Hsi & _).
  fold m in Hmi, Hsi.
  split; [|split].
  - rewrite Hv, Hmi, Hsi, !length_app, !length_map, !length_seq.
    reflexivity.
  - intros i p Hp.
    assert (Hi : (i < m)%nat) by (apply nth_error_Some; congruence).
    rewrite Hv, nth_error_app1 by (rewrite length_map; exact Hi).
    rewrite nth_error_map, Hp; reflexivity.
  - intros i Hi.
    rewrite Hv, Hs, <- !app_assoc.
    rewrite !nth_error_app2 by (rewrite ?length_map; fold m; lia).
    rewrite !length_map; fold m.
    replace (m + i - m)%nat with i by lia.
    rewrite nth_error_app1 by (rewrite length_map; exact Hi).
    reflexivity.
Qed.

Lemma handle_values_targets_witness :
  exists (L : locals) (g' : nat),
    train_step_locals nat Scene.rand Scene.sdf_distance Scene.sdf_gradient
      Scene.sdf_tangent_plane Scene.sample_zero_level_set
      Scene.rtf_network Scene.point_dist_fn Scene.triangulation_fn
      Scene.ready 0%nat = (Returned L, g')
    /\ length (l_handle_values L)
       = length (l_moving_idx L ++ l_static_idx L).
Proof.
  eexists; eexists; split; [reflexivity|].
  eapply (handle_values_targets nat Scene.rand Scene.sdf_distance
            Scene.sdf_gradient Scene.sdf_tangent_plane
            Scene.sample_zero_level_set Scene.rtf_network
            Scene.point_dist_fn Scene.triangulation_fn Scene.ready 0%nat).
  reflexivity.
Defined.

(** ** Loading the handles *)

Import HandleSetup.

Lemma load_all_found (dir : string -> option ndarray)
  (names : list string) (arrays : list ndarray) :
  Forall2 (fun f a => dir f = Some a) names arrays ->
  load_all dir names = Ok arrays.
Proof.
  induction 1 as [|f a names arrays Hf _ IH]; [reflexivity|].
  cbn [load_all]; rewrite Hf, IH; reflexivity.
Qed.

Lemma Forall2_map_r {A B C : Type} (P : A -> C -> Prop) (f : B -> C)
  (xs : list A) (ys : list B) :
  Forall2 (fun x y => P x (f y)) xs ys -> Forall2 P xs (map f ys).
Proof. induction 1; cbn [map]; constructor; assumption. Qed.

Lemma concatenate_rows (rows : list (list R)) :
  rows <> [] -> concatenate (map Arr1 rows) = Ok (Arr1 (concat rows)).
Proof.
  induction rows as [|r rows IH]; [congruence|]; intros _.
  destruct rows as [|r' rows].
  - cbn [map concatenate concat]; rewrite app_nil_r; reflexivity.
  - change (concatenate (map Arr1 (r :: r' :: rows)))
      with (match concatenate (map Arr1 (r' :: rows)) with
            | Ok x => concatenate2 (Arr1 r) x
            | Err e => Err e
            end).
    rewrite IH by discriminate; reflexivity.
Qed.

Lemma ncols_concat (c : nat) (tables : list (list (list R))) :
  tables <> [] ->
  Forall (fun rows => rows <> [] /\ ncols rows = c) tables ->
  ncols (concat tables) = c.
Proof.
  destruct tables as [|t tables]; [congruence|]; intros _ H.
  inversion H as [|? ? Hhd _]; subst; destruct Hhd as [Hne Hc].
  destruct t as [|r t]; [congruence|].
  exact Hc.
Qed.

Lemma concatenate_tables (c : nat) (tables : list (list (list R))) :
  tables <> [] ->
  Forall (fun rows => rows <> [] /\ ncols rows = c) tables ->
  concatenate (map Arr2 tables) = Ok (Arr2 (concat tables)).
Proof.
  induction tables as [|t tables IH]; [congruence|]; intros _ H.
  inversion H as [|? ? Hhd Hrest]; subst; destruct Hhd as [Hne Hc].
  destruct tables as [|t' tables].
  - cbn [map concatenate concat]; rewrite app_nil_r; reflexivity.
  - change (concatenate (map Arr2 (t :: t' :: tables)))
      with (match concatenate (map Arr2 (t' :: tables)) with
            | Ok x => concatenate2 (Arr2 t) x
            | Err e => Err e
            end).
    rewrite IH by (try discriminate; exact Hrest).
    cbn [concatenate2].
    rewrite (ncols_concat c (t' :: tables)) by
      (try discriminate; exact Hrest).
    rewrite Hc.
    rewrite Nat.eqb_refl; reflexivity.
Qed.

Lemma concatenate2_ndim (a b r : ndarray) :
  concatenate2 a b = Ok r -> ndim a = ndim r /\ ndim b = ndim r.
Proof.
  destruct a, b; cbn [concatenate2]; try discriminate.
  - intros H; injection H as <-; split; reflexivity.
  - destruct (ncols rows =? ncols rows0)%nat; [|discriminate].
    intros H; injection H as <-; split; reflexivity.
  - intros H; injection H as <-; split; reflexivity.
Qed.

Lemma concatenate_ndim (arrays : list ndarray) (r : ndarray) :
  concatenate arrays = Ok r -> Forall (fun a => ndim a = ndim r) arrays.
Proof.
  revert r; induction arrays as [|a arrays IH]; intros r; [discriminate|].
  destruct arrays as [|b arrays].
  - intros H; injection H as <-; repeat constructor.
  - change (concatenate (a :: b :: arrays))
      with (match concatenate (b :: arrays) with
            | Ok x => concatenate2 a x
            | Err e => Err e
            end).
    destruct (concatenate (b :: arrays)) as [x|e] eqn:E; [|discriminate].
    intros H; destruct (concatenate2_ndim a x r H) as [Ha Hx].
    constructor; [exact Ha|].
    specialize (IH x eq_refl).
    eapply Forall_impl; [|exact IH].
    cbn beta; intros y Hy; congruence.
Qed.

Lemma concatenate_error (arrays : list ndarray) (e : setup_error) :
  concatenate arrays = Err e -> e = ValueError.
Proof.
  induction arrays as [|a arrays IH]; [intros H; injection H as <-; reflexivity|].
  destruct arrays as [|b arrays]; [discriminate|].
  change (concatenate (a :: b :: arrays))
    with (match concatenate (b :: arrays) with
          | Ok x => concatenate2 a x
          | Err e => Err e
          end).
  destruct (concatenate (b :: arrays)) as [x|e'].
  - destruct a, x; cbn [concatenate2]; try discriminate;
      try (intros H; injection H as <-; reflexivity).
    destruct (ncols rows =? ncols rows0)%nat; [discriminate|].
    intros H; injection H as <-; reflexivity.
  - intros H; injection H as <-; apply IH; reflexivity.
Qed.

(** X13.  When every static file is a table of several rows with the same
    number of columns, [handles_static] is the rows of the files in the
    order the specification lists them, one handle per row. *)
Theorem setup_static_of_tables :
  forall (parts : string -> option ndarray) (names : list string)
         (tables : list (list (list R))) (c : nat),
    names <> [] ->
    Forall2 (fun f rows => parts f = Some (Arr2 rows)) names tables ->
    Forall (fun rows => rows <> [] /\ ncols rows = c) tables ->
    setup_static parts (Some names) = Ok (Arr2 (concat tables))
    /\ length (concat tables) = list_sum (map (@length (list R)) tables).
Proof.
  intros parts names tables c Hne Hf Hc.
  split; [|apply length_concat].
  assert (Ht : tables <> []).
  { intros ->; inversion Hf; subst; congruence. }
  unfold setup_static.
  destruct names as [|f names]; [congruence|].
  rewrite (load_all_found parts (f :: names) (map Arr2 tables))
    by (apply Forall2_map_r; exact Hf).
  rewrite (concatenate_tables c tables Ht Hc); reflexivity.
Qed.

(** X14.  A file of a single row is read as an array of one axis, and
    arrays of one axis are joined end to end: when every static file
    holds a single row, [handles_static] is one row holding the values of
    all the files, however many files there are. *)
Theorem setup_static_of_single_rows :
  forall (parts : string -> option ndarray) (names : list string)
         (rows : list (list R)),
    names <> [] ->
    Forall2 (fun f row => parts f = Some (Arr1 row)) names rows ->
    setup_static parts (Some names) = Ok (Arr2 [concat rows]).
Proof.
  intros parts names rows Hne Hf.
  assert (Hr : rows <> []).
  { intros ->; inversion Hf; subst; congruence. }
  unfold setup_static.
  destruct names as [|f names]; [congruence|].
  rewrite (load_all_found parts (f :: names) (map Arr1 rows))
    by (apply Forall2_map_r; exact Hf).
  rewrite (concatenate_rows rows Hr); reflexivity.
Qed.

(** X15.  When the static files can all be read and one of them holds a
    single row while another holds a table, [setup_data] raises the
    ValueError of the concatenation. *)
Theorem setup_static_mixed_raises :
  forall (parts transforms : string -> option ndarray)
         (names : list string) (arrays : list ndarray)
         (group : option moving_group) (a b : ndarray),
    Forall2 (fun f x => parts f = Some x) names arrays ->
    In a arrays -> ndim a = 1%nat ->
    In b arrays -> ndim b = 2%nat ->
    setup_data parts transforms (Some (mkGroups (Some names) group))
    = Err ValueError.
Proof.
  intros parts transforms names arrays group a b Hf Ha Ha1 Hb Hb2.
  unfold setup_data; cbn [static].
  assert (Hs : setup_static parts (Some names) = Err ValueError).
  { unfold setup_static.
    destruct names as [|f names]; [inversion Hf; subst; destruct Ha|].
    rewrite (load_all_found parts (f :: names) arrays Hf).
    destruct (concatenate arrays) as [r|e] eqn:E.
    - pose proof (concatenate_ndim arrays r E) as Hall.
      rewrite Forall_forall in Hall.
      pose proof (Hall a Ha); pose proof (Hall b Hb); congruence.
    - rewrite (concatenate_error arrays e E); reflexivity. }
  rewrite Hs; reflexivity.
Qed.

Lemma setup_static_of_tables_witness :
  setup_static HandleFiles.parts (Some ["arm"%string; "leg"%string])
  = Ok (Arr2 [[1; 0; 0]; [0; 1; 0]; [0; 0; 1]; [1; 1; 1]; [2; 2; 2]]).
Proof.
  apply (setup_static_of_tables HandleFiles.parts
           ["arm"%string; "leg"%string]
           [[[1; 0; 0]; [0; 1; 0]]; [[0; 0; 1]; [1; 1; 1]; [2; 2; 2]]]
           3%nat).
  - discriminate.
  - repeat constructor.
  - repeat constructor; discriminate.
Defined.

Lemma setup_static_of_single_rows_witness :
  setup_static HandleFiles.parts (Some ["tip"%string; "toe"%string])
  = Ok (Arr2 [[5; 5; 5; 6; 6; 6]]).
Proof.
  apply (setup_static_of_single_rows HandleFiles.parts
           ["tip"%string; "toe"%string] [[5; 5; 5]; [6; 6; 6]]).
  - discriminate.
  - repeat constructor.
Defined.

Lemma setup_static_mixed_raises_witness :
  setup_data HandleFiles.parts HandleFiles.transforms
    (Some (mkGroups (Some ["arm"%string; "tip"%string]) None))
  = Err ValueError.
Proof.
  apply (setup_static_mixed_raises HandleFiles.parts HandleFiles.transforms
           ["arm"%string; "tip"%string]
           [Arr2 [[1; 0; 0]; [0; 1; 0]]; Arr1 [5; 5; 5]] None
           (Arr1 [5; 5; 5]) (Arr2 [[1; 0; 0]; [0; 1; 0]])).
  - repeat constructor.
  - right; left; reflexivity.
  - reflexivity.
  - left; reflexivity.
  - reflexivity.
Defined.

(** X16.  For a non-empty list of moving files: a list of transform files
    of another length fails the assertion before any file is read.  With
    lists of equal length whose files are tables, [handles_moving] joins
    row [i] of the positions with row [i] of the transforms when the
    files hold as many position rows as transform rows in total, and
    otherwise raises the shape error of the join; the assertion on the
    number of files does not catch that. *)
Theorem setup_moving_of_tables :
  forall (parts transforms : string -> option ndarray)
         (pos_names tr_names : list string),
    pos_names <> [] ->
    (length pos_names <> length tr_names ->
     setup_moving parts transforms (Some (mkMoving pos_names tr_names))
     = Err AssertionError)
    /\ (length pos_names = length tr_names ->
        forall (P T : list (list (list R))) (cp ct : nat),
          Forall2 (fun f rows => parts f = Some (Arr2 rows)) pos_names P ->
          Forall2 (fun f rows => transforms f = Some (Arr2 rows))
            tr_names T ->
          Forall (fun rows => rows <> [] /\ ncols rows = cp) P ->
          Forall (fun rows => rows <> [] /\ ncols rows = ct) T ->
          setup_moving parts transforms
            (Some (mkMoving pos_names tr_names))
          = if (length (concat P) =? length (concat T))%nat
            then Ok (Arr2 (zip_with (@app R) (concat P) (concat T)))
            else Err RuntimeError).
Proof.
  intros parts transforms pos_names tr_names Hne.
  destruct pos_names as [|f pos_names]; [congruence|].
  split.
  - intros Hlen; unfold setup_moving.
    apply Nat.eqb_neq in Hlen; rewrite Hlen; reflexivity.
  - intros Hlen P T cp ct HP HT HcP HcT.
    assert (HPne : P <> []) by (intros ->; inversion HP).
    assert (HTne : T <> []).
    { intros ->; inversion HT; subst; cbn [length] in Hlen; lia. }
    unfold setup_moving.
    apply Nat.eqb_eq in Hlen; rewrite Hlen; cbn [negb].
    rewrite (load_all_found parts (f :: pos_names) (map Arr2 P))
      by (apply Forall2_map_r; exact HP).
    rewrite (load_all_found transforms tr_names (map Arr2 T))
      by (apply Forall2_map_r; exact HT).
    rewrite (concatenate_tables cp P HPne HcP).
    rewrite (concatenate_tables ct T HTne HcT).
    reflexivity.
Qed.

Lemma setup_moving_of_tables_witness :
  setup_moving HandleFiles.parts HandleFiles.transforms
    (Some (mkMoving ["arm"%string; "leg"%string]
             ["arm"%string; "leg"%string]))
  = Err RuntimeError.
Proof.
  apply (proj2 (setup_moving_of_tables HandleFiles.parts
                  HandleFiles.transforms ["arm"%string; "leg"%string]
                  ["arm"%string; "leg"%string] ltac:(discriminate))
           eq_refl
           [[[1; 0; 0]; [0; 1; 0]]; [[0; 0; 1]; [1; 1; 1]; [2; 2; 2]]]
           [[[1; 0; 1]; [0; 1; 1]]; [[0; 0; 2]; [1; 1; 2]]]
           3%nat 3%nat).
  - repeat constructor.
  - repeat constructor.
  - repeat constructor; discriminate.
  - repeat constructor; discriminate.
Defined.

(** X17.  When every moving file and every transform file holds a single
    row, [handles_moving] is one row: the values of all position files
    followed by the values of all transform files.  If instead the
    positions are single rows and the transforms join into a table, the
    transforms get a third axis and the join raises. *)
Theorem setup_moving_of_single_rows :
  forall (parts transforms : string -> option ndarray)
         (pos_names tr_names : list string) (ps : list (list R)),
    pos_names <> [] ->
    length pos_names = length tr_names ->
    Forall2 (fun f row => parts f = Some (Arr1 row)) pos_names ps ->
    (forall qs : list (list R),
       Forall2 (fun f row => transforms f = Some (Arr1 row)) tr_names qs ->
       setup_moving parts transforms (Some (mkMoving pos_names tr_names))
       = Ok (Arr2 [concat ps ++ concat qs]))
    /\ (forall (T : list (list (list R))) (ct : nat),
          Forall2 (fun f rows => transforms f = Some (Arr2 rows))
            tr_names T ->
          Forall (fun rows => rows <> [] /\ ncols rows = ct) T ->
          setup_moving parts transforms
            (Some (mkMoving pos_names tr_names))
          = Err RuntimeError).
Proof.
  intros parts transforms pos_names tr_names ps Hne Hlen HP.
  destruct pos_names as [|f pos_names]; [congruence|].
  assert (Hps : ps <> []) by (intros ->; inversion HP).
  apply Nat.eqb_eq in Hlen.
  split.
  - intros qs HQ.
    assert (Hqs : qs <> []).
    { intros ->; inversion HQ; subst; discriminate. }
    unfold setup_moving; rewrite Hlen; cbn [negb].
    rewrite (load_all_found parts (f :: pos_names) (map Arr1 ps))
      by (apply Forall2_map_r; exact HP).
    rewrite (load_all_found transforms tr_names (map Arr1 qs))
      by (apply Forall2_map_r; exact HQ).
    rewrite (concatenate_rows ps Hps), (concatenate_rows qs Hqs).
    reflexivity.
  - intros T ct HT HcT.
    assert (HTne : T <> []).
    { intros ->; inversion HT; subst; discriminate. }
    unfold setup_moving; rewrite Hlen; cbn [negb].
    rewrite (load_all_found parts (f :: pos_names) (map Arr1 ps))
      by (apply Forall2_map_r; exact HP).
    rewrite (load_all_found transforms tr_names (map Arr2 T))
      by (apply Forall2_map_r; exact HT).
    rewrite (concatenate_rows ps Hps), (concatenate_tables ct T HTne HcT).
    reflexivity.
Qed.

Lemma setup_moving_of_single_rows_witness :
  setup_moving HandleFiles.parts HandleFiles.transforms
    (Some (mkMoving ["tip"%string; "toe"%string]
             ["tip"%string; "toe"%string]))
  = Ok (Arr2 [[5; 5; 5; 6; 6; 6; 5; 5; 9; 6; 6; 9]]).
Proof.
  apply (proj1 (setup_moving_of_single_rows HandleFiles.parts
                  HandleFiles.transforms ["tip"%string; "toe"%string]
                  ["tip"%string; "toe"%string] [[5; 5; 5]; [6; 6; 6]]
                  ltac:(discriminate) eq_refl
                  ltac:(repeat constructor))
           [[5; 5; 9]; [6; 6; 9]]).
  repeat constructor.
Defined.

(** With matching row counts the rows are joined pairwise. *)
Example setup_moving_joins_rows :
  setup_moving HandleFiles.parts HandleFiles.transforms
    (Some (mkMoving ["arm"%string] ["arm"%string]))
  = Ok (Arr2 [[1; 0; 0; 1; 0; 1]; [0; 1; 0; 0; 1; 1]]).
Proof. reflexivity. Qed.

(** ** The length of a projection step *)

Lemma norm_F_normalize_le (g : vec3) : norm (F_normalize g) <= 1.
Proof.
  unfold F_normalize; rewrite norm_vscale.
  pose proof (normalize_denom_pos g) as Hd.
  pose proof (norm_nonneg g) as Hn.
  rewrite Rabs_right by (apply Rle_ge, Rlt_le, Rinv_0_lt_compat; exact Hd).
  assert (Hle : norm g <= normalize_denom g) by apply Rmax_l.
  apply Rmult_le_reg_r with (normalize_denom g); [exact Hd|].
  replace (/ normalize_denom g * norm g * normalize_denom g) with (norm g)
    by (field; lra).
  lra.
Qed.

Lemma norm_F_normalize_eq (g : vec3) :
  normalize_eps <= norm g -> norm (F_normalize g) = 1.
Proof.
  intros H; unfold F_normalize, normalize_denom.
  rewrite Rmax_left by exact H.
  pose proof normalize_eps_pos as He.
  rewrite norm_vscale.
  rewrite Rabs_right by (apply Rle_ge, Rlt_le, Rinv_0_lt_compat; lra).
  field; lra.
Qed.

Lemma norm_step (k : R) (q n : vec3) :
  norm (vsub (vsub q (vscale k n)) q) = Rabs k * norm n.
Proof.
  replace (vsub (vsub q (vscale k n)) q) with (vscale (- k) n) by vec_ring.
  rewrite norm_vscale, Rabs_Ropp; reflexivity.
Qed.

(** X18.  A round of the projection never moves a point farther than its
    current offset [|f(p) - level|] from the target level, and moves it by
    exactly that much whenever the gradient is at least [eps] long. *)
Theorem projection_step_length :
  forall (sdf : vec3 -> R) (gradient : vec3 -> vec3) (level : R) (q : vec3),
    norm (vsub (level_set_update sdf gradient level q) q)
    <= Rabs (sdf q - level)
    /\ (normalize_eps <= norm (gradient q) ->
        norm (vsub (level_set_update sdf gradient level q) q)
        = Rabs (sdf q - level)).
Proof.
  intros sdf gradient level q; unfold level_set_update.
  rewrite norm_step; split.
  - pose proof (norm_F_normalize_le (gradient q)) as H1.
    pose proof (norm_nonneg (F_normalize (gradient q))) as H0.
    pose proof (Rabs_pos (sdf q - level)) as Ha.
    nra.
  - intros H; rewrite (norm_F_normalize_eq _ H); ring.
Qed.

Lemma projection_step_length_witness :
  norm (vsub (level_set_update (fun p => vz p) (fun _ => mkV 0 0 1) 0
                (mkV 1 2 3)) (mkV 1 2 3))
  = Rabs (3 - 0).
Proof.
  apply (projection_step_length (fun p => vz p) (fun _ => mkV 0 0 1) 0
           (mkV 1 2 3)).
  rewrite norm_along_z.
  unfold normalize_eps.
  apply Rle_trans with (/ 1); [|rewrite Rinv_1; lra].
  apply Rinv_le_contravar; [lra|].
  apply pow_R1_Rle; lra.
Defined.

(** ** Vertex 0 of a patch *)

Lemma mapply_vzero (M : mat3) : mapply M vzero = vzero.
Proof. vec_ring. Qed.

Lemma vadd_zero_l (a : vec3) : vadd vzero a = a.
Proof. vec_ring. Qed.

Lemma iter_fixed {A : Type} (n : nat) (f : A -> A) (x : A) :
  f x = x -> Nat.iter n f x = x.
Proof.
  intros H; induction n as [|n IH]; [reflexivity|].
  change (Nat.iter (S n) f x) with (f (Nat.iter n f x)).
  rewrite IH; exact H.
Qed.

(** X19.  When the first point of the patch template is the origin,
    vertex 0 of the patch of every sample is the sample itself, before
    and after the rounds of re-projection: the target level of a patch is
    the distance at its own sample, so the sample is already on it.  The
    handle indices [(i, 0)] therefore select the projected handles. *)
Theorem patch_vertex_zero_is_sample :
  forall (rng : Type) (rand : nat -> rng -> list vec3 * rng)
         (sdf_distance : module_params -> vec3 -> R)
         (sdf_gradient : module_params -> vec3 -> vec3)
         (sdf_tangent_plane : module_params -> vec3 -> mat3)
         (sampler : module_params -> Z -> R -> nat -> R * R -> nat -> rng ->
                    ZeroLevelSetSampler.sample_result * rng)
         (rtf_network : module_params -> vec3 -> list R)
         (point_dist_fn : nat -> R -> rng -> list vec3 * rng)
         (triangulation_fn : list (R * R) -> list (nat * nat * nat))
         (self : trainer) (g g' : rng) (L : locals),
    train_step_locals rng rand sdf_distance sdf_gradient sdf_tangent_plane
      sampler rtf_network point_dist_fn triangulation_fn self g
    = (Returned L, g') ->
    nth_error (l_plane_coords L) 0 = Some vzero ->
    forall (i : nat) (s : vec3),
      nth_error (l_samples L) i = Some s ->
      index2 (l_tangent_pts L) i 0 = Some s
      /\ index2 (l_level_set_verts L) i 0 = Some s.
Proof.
  intros rng rand sdf_distance sdf_gradient sdf_tangent_plane sampler
    rtf_network point_dist_fn triangulation_fn self g g' L H H0 i s Hs.
  destruct (locals_returned rng rand sdf_distance sdf_gradient
              sdf_tangent_plane sampler rtf_network point_dist_fn
              triangulation_fn self g g' L H)
    as (sampled & g1 & space & g2 & _ & _ & _ & _ & _ & _ & Hp & _ & Ht & Hl
        & _).
  rewrite Hp in H0.
  unfold index2; rewrite Ht, Hl, !nth_error_map, Hs; cbn [option_map].
  rewrite !nth_error_map, H0; cbn [option_map].
  rewrite mapply_vzero, vadd_zero_l.
  split; [reflexivity|].
  f_equal; apply iter_fixed, level_set_update_on_level; reflexivity.
Qed.

Lemma patch_vertex_zero_is_sample_witness :
  exists (L : locals) (g' : nat) (s : vec3),
    train_step_locals nat Scene.rand Scene.sdf_distance Scene.sdf_gradient
      Scene.sdf_tangent_plane Scene.sample_zero_level_set
      Scene.rtf_network Scene.point_dist_fn Scene.triangulation_fn
      Scene.ready 0%nat = (Returned L, g')
    /\ nth_error (l_samples L) 3 = Some s
    /\ index2 (l_level_set_verts L) 3 0 = Some s.
Proof.
  eexists; eexists; eexists; split; [reflexivity|].
  split; [reflexivity|].
  refine (proj2 (patch_vertex_zero_is_sample nat Scene.rand
                   Scene.sdf_distance Scene.sdf_gradient
                   Scene.sdf_tangent_plane Scene.sample_zero_level_set
                   Scene.rtf_network Scene.point_dist_fn
                   Scene.triangulation_fn Scene.ready 0%nat _ _
                   eq_refl eq_refl 3%nat _ eq_refl)).
Defined.
